(** * Clipping tool: caption overlay, playback tick, clip export, time parsing

    A shallow embedding of the parts of the repository that decide the
    behaviour of the player component (the [render] loop, [handleTimeUpdate],
    [handleDownloadClip], [recorder.onstop], [finishExport]) and of
    [parseTime] in [services/geminiService.ts]; then of what surrounds them:
    seeking and clip selection in the player, the two [formatTime] helpers,
    the layout of the caption line, the upload form's submit and file naming,
    the cleaning of the response text and the state of the application
    shell.

    Modelling conventions.
    - A JavaScript string is the list of its UTF-16 code units, each an [N].
      [length], [trim], [split] and [replace] without the [u] flag all work on
      code units, so this is the granularity of the source.
    - Times ([startSeconds], [endSeconds], [video.currentTime]) are finite
      numbers and are represented by exact rationals [Q]; the rounding of
      binary64 arithmetic is not represented there.  Where a result depends
      on it, the rounding is written out: [parseTime] rounds each conversion,
      product and sum of whole numbers, and the word highlight is also given
      over an arbitrary arithmetic, with binary64 as an instance.
    - Where the source can produce a non-finite number (a division by zero in
      the progress computation, an overflowing [Number(...)] conversion) the
      result has type [jsnum], which adds [NaN] and the two infinities.
    - React state setters are applied in program order; the refs
      ([videoRef], [mediaRecorderRef], [recordedChunksRef]) are fields of one
      state record, threaded explicitly, and every externally visible action
      (capture stop, download, console error) is appended to an effect list. *)

From Stdlib Require Import ZArith NArith QArith Qminmax Qround Lqa Lia List Bool String Ascii.
From Stdlib Require Floats Uint63.
Import ListNotations.

Local Open Scope Z_scope.

(* ------------------------------------------------------------------ *)
(** ** JavaScript strings as lists of UTF-16 code units *)

Module JSString.

Definition code_unit := N.
Definition t := list code_unit.

(** A string literal of the development, code unit by code unit. *)
Definition of_string (s : string) : t :=
  List.map N_of_ascii (list_ascii_of_string s).

(** The class [\s]: WhiteSpace and LineTerminator of ECMAScript. *)
Definition isWhiteSpace (c : code_unit) : bool :=
  ((9 <=? c) && (c <=? 13) || (c =? 32) || (c =? 160) || (c =? 5760)
   || ((8192 <=? c) && (c <=? 8202)) || (c =? 8232) || (c =? 8233)
   || (c =? 8239) || (c =? 8287) || (c =? 12288) || (c =? 65279))%N.

(** [0-9] *)
Definition isDigit (c : code_unit) : bool := ((48 <=? c) && (c <=? 57))%N.

(** [a-z0-9] under the [i] flag: the ASCII letters of both cases and the
    digits (without the [u] flag no code unit above 127 folds onto them). *)
Definition isAlnum (c : code_unit) : bool :=
  (isDigit c || ((97 <=? c) && (c <=? 122)) || ((65 <=? c) && (c <=? 90)))%N.

Definition colon : code_unit := 58%N.
Definition underscore : code_unit := 95%N.

Fixpoint trimStart (s : t) : t :=
  match s with
  | [] => []
  | c :: r => if isWhiteSpace c then trimStart r else s
  end.

Definition trimEnd (s : t) : t := rev (trimStart (rev s)).

(** [String.prototype.trim] *)
Definition trim (s : t) : t := trimEnd (trimStart s).

(** [s.split(/\s+/)]: the pieces between maximal runs of white space.
    [cur] is the piece being read (reversed), [inWs] tells that the last
    code unit read was white space, so the separator is still running. *)
Fixpoint splitWsFrom (inWs : bool) (cur : t) (s : t) : list t :=
  match s with
  | [] => [rev cur]
  | c :: r =>
      if isWhiteSpace c
      then (if inWs then splitWsFrom true cur r
            else rev cur :: splitWsFrom true [] r)
      else splitWsFrom false (c :: cur) r
  end.

Definition splitWs (s : t) : list t := splitWsFrom false [] s.

(** [s.split(sep)] for a one-code-unit separator. *)
Fixpoint splitOnFrom (sep : code_unit) (cur : t) (s : t) : list t :=
  match s with
  | [] => [rev cur]
  | c :: r =>
      if (c =? sep)%N then rev cur :: splitOnFrom sep [] r
      else splitOnFrom sep (c :: cur) r
  end.

Definition splitOn (sep : code_unit) (s : t) : list t := splitOnFrom sep [] s.

(** [s.replace(/[^...]/g, '')] for a class given by its members. *)
Definition removeOutside (keep : code_unit -> bool) (s : t) : t :=
  List.filter keep s.

(** [s.replace(/[^...]/g, r)] for a one-code-unit replacement. *)
Definition replaceOutside (keep : code_unit -> bool) (r : code_unit) (s : t) : t :=
  List.map (fun c => if keep c then c else r) s.

Definition length (s : t) : Z := Z.of_nat (List.length s).

End JSString.

(* ------------------------------------------------------------------ *)
(** ** JavaScript numbers *)

Module JSNum.

(** A number is a finite value, an infinity or NaN.  Finite values are
    exact rationals; signed zeros are not distinguished. *)
Inductive jsnum : Type :=
| Fin (q : Q)
| PInf
| NInf
| NaN.

Definition Qltb (x y : Q) : bool := negb (Qle_bool y x).

(** The magnitude from which round-to-nearest yields an infinity:
    [2^1024 - 2^970]. *)
Definition overflow_bound : Z := 2 ^ 1024 - 2 ^ 970.

(** A finite exact result, or the infinity it overflows to. *)
Definition norm (q : Q) : jsnum :=
  if Qle_bool (inject_Z overflow_bound) q then PInf
  else if Qle_bool q (inject_Z (- overflow_bound)) then NInf
  else Fin q.

Definition sign (q : Q) : Z :=
  if Qltb 0 q then 1 else if Qltb q 0 then -1 else 0.

Definition mul (x y : jsnum) : jsnum :=
  match x, y with
  | NaN, _ | _, NaN => NaN
  | Fin a, Fin b => norm (a * b)
  | Fin a, PInf | PInf, Fin a =>
      match sign a with 0 => NaN | Zpos _ => PInf | Zneg _ => NInf end
  | Fin a, NInf | NInf, Fin a =>
      match sign a with 0 => NaN | Zpos _ => NInf | Zneg _ => PInf end
  | PInf, PInf | NInf, NInf => PInf
  | PInf, NInf | NInf, PInf => NInf
  end.

Definition add (x y : jsnum) : jsnum :=
  match x, y with
  | NaN, _ | _, NaN => NaN
  | Fin a, Fin b => norm (a + b)
  | PInf, NInf | NInf, PInf => NaN
  | PInf, _ | _, PInf => PInf
  | NInf, _ | _, NInf => NInf
  end.

(** Division; a zero divisor is the positive zero, as produced by the
    subtraction of two equal finite numbers. *)
Definition div (x y : jsnum) : jsnum :=
  match x, y with
  | NaN, _ | _, NaN => NaN
  | Fin a, Fin b =>
      if Qeq_bool b 0
      then match sign a with 0 => NaN | Zpos _ => PInf | Zneg _ => NInf end
      else norm (a / b)
  | Fin _, (PInf | NInf) => Fin 0
  | (PInf | NInf), (PInf | NInf) => NaN
  | PInf, Fin b => if Qltb b 0 then NInf else PInf
  | NInf, Fin b => if Qltb b 0 then PInf else NInf
  end.

Definition isFinite (x : jsnum) : bool :=
  match x with Fin _ => true | _ => false end.

End JSNum.

(* ------------------------------------------------------------------ *)
(** ** The arithmetic of the word highlight *)

Module Arith.

(** The operations that the highlight computation applies to numbers:
    the conversion of a character count, [-], [*], [/], [<=], [<] and the
    constant [0.9]. *)
Record t (num : Type) : Type := mk {
  ofInt : Z -> num;
  sub : num -> num -> num;
  mul : num -> num -> num;
  div : num -> num -> num;
  le : num -> num -> bool;
  lt : num -> num -> bool;
  nineTenths : num
}.

Arguments ofInt {num}.
Arguments sub {num}.
Arguments mul {num}.
Arguments div {num}.
Arguments le {num}.
Arguments lt {num}.
Arguments nineTenths {num}.

(** Exact rationals. *)
Definition exact : t Q :=
  mk Q inject_Z Qminus Qmult Qdiv Qle_bool JSNum.Qltb (9 # 10).

(** Binary64, the numbers of JavaScript: every operation rounds to nearest,
    a comparison with [NaN] is false, and [0.9] is the binary64 value
    nearest to nine tenths. *)
Definition float_of_Z (z : Z) : PrimFloat.float :=
  PrimFloat.of_uint63 (Uint63.of_Z z).

Definition binary64 : t PrimFloat.float :=
  mk PrimFloat.float float_of_Z PrimFloat.sub PrimFloat.mul PrimFloat.div
     PrimFloat.leb PrimFloat.ltb
     (PrimFloat.div (float_of_Z 9) (float_of_Z 10)).

End Arith.

(* ------------------------------------------------------------------ *)
(** ** [services/geminiService.ts]: [parseTime] *)

Module GeminiService.
Import JSString JSNum.

(** The decimal value of a run of digits, most significant first. *)
Fixpoint digitsValueFrom (acc : Z) (s : JSString.t) : Z :=
  match s with
  | [] => acc
  | c :: r => digitsValueFrom (10 * acc + (Z.of_N c - 48)) r
  end.

(** Round to nearest, ties to even, of a whole number that is not negative
    to the whole number a binary64 value holds: below [2^53] every whole
    number is held as it is; from there on the 53 leading bits are kept,
    [e] being the exponent of the last of them. *)
Definition roundToDouble (n : Z) : Z :=
  if n <? 2 ^ 53 then n
  else
    let e := Z.log2 n - 52 in
    let q := n / 2 ^ e in
    let r := n mod 2 ^ e in
    let half := 2 ^ (e - 1) in
    if (half <? r) || ((r =? half) && Z.odd q)
    then (q + 1) * 2 ^ e
    else q * 2 ^ e.

(** The binary64 value of a whole number: rounded, and [Infinity] when the
    rounding reaches [2^1024]. *)
Definition double (n : Z) : jsnum :=
  if 2 ^ 1024 <=? roundToDouble n then PInf
  else Fin (inject_Z (roundToDouble n)).

(** [Number(s)] for a string of decimal digits: the binary64 value nearest
    to the decimal value; the empty string gives 0, a value beyond the
    largest finite number gives [Infinity]. *)
Definition Number (s : JSString.t) : jsnum :=
  double (digitsValueFrom 0 s).

(** [x * y] and [x + y] in binary64.  The finite operands of [parseTime]
    are whole numbers that are not negative: the exact product or sum is a
    whole number, which is rounded.  An infinite operand follows the
    general rules. *)
Definition times (x y : jsnum) : jsnum :=
  match x, y with
  | Fin a, Fin b => double (Qfloor a * Qfloor b)
  | _, _ => mul x y
  end.

Definition plus (x y : jsnum) : jsnum :=
  match x, y with
  | Fin a, Fin b => double (Qfloor a + Qfloor b)
  | _, _ => add x y
  end.

Definition isDigitOrColon (c : code_unit) : bool :=
  isDigit c || (c =? colon)%N.

Definition parseTime (timeStr : JSString.t) : jsnum :=
  match timeStr with
  | [] => Fin 0
  | _ =>
      let cleanStr := removeOutside isDigitOrColon timeStr in
      let parts := List.map Number (splitOn colon cleanStr) in
      match parts with
      | [p0; p1] => plus (times p0 (Fin 60)) p1
      | [p0; p1; p2] => plus (plus (times p0 (Fin 3600)) (times p1 (Fin 60))) p2
      | _ => Fin 0
      end
  end.

End GeminiService.

(* ------------------------------------------------------------------ *)
(** ** [types.ts]: captions and clips *)

Module Caption.
Record t : Type := mk {
  text : JSString.t;
  start : JSString.t;
  end_ : JSString.t;
  startSeconds : Q;
  endSeconds : Q
}.
End Caption.

Module Clip.
Record t : Type := mk {
  id : JSString.t;
  title : JSString.t;
  startTime : JSString.t;
  endTime : JSString.t;
  startSeconds : Q;
  endSeconds : Q;
  description : JSString.t;
  viralScore : Z;
  captions : list Caption.t
}.
End Clip.

(* ------------------------------------------------------------------ *)
(** ** The player component: caption overlay of [render] *)

Module Render.
Import JSString JSNum.

(** [Array.prototype.findIndex]: the first index whose element satisfies
    [p], or -1. *)
Fixpoint findIndexFrom {A : Type} (p : A -> bool) (i : Z) (l : list A) : Z :=
  match l with
  | [] => -1
  | x :: r => if p x then i else findIndexFrom p (i + 1) r
  end.

Definition findIndex {A : Type} (p : A -> bool) (l : list A) : Z :=
  findIndexFrom p 0 l.

(** The predicate handed to [findIndex]:
    [vidTime >= c.startSeconds && vidTime <= c.endSeconds]. *)
Definition captionAt (vidTime : Q) (c : Caption.t) : bool :=
  Qle_bool (Caption.startSeconds c) vidTime
  && Qle_bool vidTime (Caption.endSeconds c).

(** The [for] loop over [words]; the result is [activeWordIndex] when the
    loop is left, -1 when no iteration breaks. *)
Fixpoint wordLoop (charDuration timePassed : Q) (words : list JSString.t)
         (i : Z) (charAccumulator : Z) : Z :=
  match words with
  | [] => -1
  | w :: rest =>
      let wLen := JSString.length w + 1 in
      let wStartTime := (inject_Z charAccumulator * charDuration)%Q in
      let wEndTime := (inject_Z (charAccumulator + wLen) * charDuration)%Q in
      if Qle_bool wStartTime timePassed && Qltb timePassed wEndTime
      then i
      else wordLoop charDuration timePassed rest (i + 1) (charAccumulator + wLen)
  end.

Definition captionWords (currentCaption : Caption.t) : list JSString.t :=
  splitWs (trim (Caption.text currentCaption)).

(** "Time Logic for Word Highlighting": the value of [activeWordIndex]
    when the draw loop starts. *)
Definition activeWordIndex (currentCaption : Caption.t) (vidTime : Q) : Z :=
  let words := captionWords currentCaption in
  let captionDuration :=
    (Caption.endSeconds currentCaption - Caption.startSeconds currentCaption)%Q in
  let timePassed := (vidTime - Caption.startSeconds currentCaption)%Q in
  let totalChars := JSString.length (Caption.text currentCaption) in
  let charDuration := (captionDuration / inject_Z (Z.max 1 totalChars))%Q in
  let activeWordIndex := wordLoop charDuration timePassed words 0 0 in
  if (activeWordIndex =? -1) && Qle_bool (captionDuration * (9 # 10))%Q timePassed
  then Z.of_nat (List.length words) - 1
  else activeWordIndex.

(** What one frame shows of the captions: the caption drawn, its words and
    the index of the word that gets the highlight box. *)
Record Overlay : Type := mkOverlay {
  currentCaption : Caption.t;
  words : list JSString.t;
  highlighted : Z
}.

Definition overlay (showCaptions : bool) (activeClip : option Clip.t)
           (vidTime : Q) : option Overlay :=
  match showCaptions, activeClip with
  | true, Some clip =>
      let captionIndex := findIndex (captionAt vidTime) (Clip.captions clip) in
      if captionIndex =? -1 then None
      else
        match nth_error (Clip.captions clip) (Z.to_nat captionIndex) with
        | Some c => Some (mkOverlay c (captionWords c) (activeWordIndex c vidTime))
        | None => None
        end
  | _, _ => None
  end.

(** The caption a frame draws, if any. *)
Definition resolveCaption (captions : list Caption.t) (vidTime : Q)
  : option Caption.t :=
  let captionIndex := findIndex (captionAt vidTime) captions in
  if captionIndex =? -1 then None
  else nth_error captions (Z.to_nat captionIndex).

(** The word a frame highlights, if any: [words[activeWordIndex]]. *)
Definition activeWord (c : Caption.t) (vidTime : Q) : option JSString.t :=
  let i := activeWordIndex c vidTime in
  if i <? 0 then None else nth_error (captionWords c) (Z.to_nat i).

End Render.

(* ------------------------------------------------------------------ *)
(** ** The word highlight of [render] over any arithmetic *)

(** The same statements of [render] as [Render.wordLoop] and
    [Render.activeWordIndex], with the operations on numbers taken from an
    arithmetic [A] instead of the exact rationals. *)
Module Highlight.
Import JSString.
Section Over.
Context {num : Type} (A : Arith.t num).

Fixpoint wordLoop (charDuration timePassed : num) (words : list JSString.t)
         (i : Z) (charAccumulator : Z) : Z :=
  match words with
  | [] => -1
  | w :: rest =>
      let wLen := JSString.length w + 1 in
      let wStartTime := Arith.mul A (Arith.ofInt A charAccumulator) charDuration in
      let wEndTime :=
        Arith.mul A (Arith.ofInt A (charAccumulator + wLen)) charDuration in
      if Arith.le A wStartTime timePassed && Arith.lt A timePassed wEndTime
      then i
      else wordLoop charDuration timePassed rest (i + 1) (charAccumulator + wLen)
  end.

Definition activeWordIndex (text : JSString.t)
           (startSeconds endSeconds vidTime : num) : Z :=
  let words := splitWs (trim text) in
  let captionDuration := Arith.sub A endSeconds startSeconds in
  let timePassed := Arith.sub A vidTime startSeconds in
  let totalChars := JSString.length text in
  let charDuration :=
    Arith.div A captionDuration (Arith.ofInt A (Z.max 1 totalChars)) in
  let activeWordIndex := wordLoop charDuration timePassed words 0 0 in
  if (activeWordIndex =? -1)
     && Arith.le A (Arith.mul A captionDuration (Arith.nineTenths A)) timePassed
  then Z.of_nat (List.length words) - 1
  else activeWordIndex.

End Over.
End Highlight.

(* ------------------------------------------------------------------ *)
(** ** The player component: playback tick and clip export *)

Module Player.
Import JSString JSNum.

(** [MediaRecorder.state] *)
Inductive RecordingState : Type := inactive | recording | paused.

Definition isInactive (r : RecordingState) : bool :=
  match r with inactive => true | _ => false end.

(** A recorded chunk, and the blob assembled from chunks. *)
Definition Blob := list N.

(** The recorder held by [mediaRecorderRef], with what its [onstop]
    closure captured ([activeClip], [mimeType]) and whether its [stop]
    event has been queued and not yet delivered. *)
Record MediaRecorder : Type := mkRecorder {
  state : RecordingState;
  mimeType : JSString.t;
  withAudioTrack : bool;
  capturedClip : Clip.t;
  stopQueued : bool
}.

(** What the platform answers during [handleDownloadClip]. *)
Record Platform : Type := mkPlatform {
  vp9Supported : bool;         (* MediaRecorder.isTypeSupported(...vp9) *)
  audioTrackPresent : bool     (* videoStream.getAudioTracks()[0] *)
}.

Record State : Type := mkState {
  (* the video element behind videoRef *)
  video_currentTime : Q;
  video_paused : bool;
  (* React state *)
  isPlaying : bool;
  activeClip : option Clip.t;
  showCaptions : bool;
  currentTime : Q;
  progress : jsnum;
  isExporting : bool;
  exportProgress : jsnum;
  (* refs *)
  mediaRecorder : option MediaRecorder;
  recordedChunks : list Blob
}.

(** Actions visible outside the component. *)
Inductive Effect : Type :=
| PlayCalled                                   (* video.play() *)
| CaptureStarted (mime : JSString.t)           (* recorder.start() *)
| CaptureStopped                               (* recorder.stop() *)
| Downloaded (name : JSString.t) (blob : Blob) (* a.click() *)
| ConsoleError (msg : string).

Definition set_video (t : Q) (p : bool) (s : State) : State :=
  mkState t p (isPlaying s) (activeClip s) (showCaptions s) (currentTime s)
          (progress s) (isExporting s) (exportProgress s) (mediaRecorder s)
          (recordedChunks s).

Definition video_pause (s : State) : State :=
  set_video (video_currentTime s) true s.

Definition video_play (s : State) : State :=
  set_video (video_currentTime s) false s.

Definition video_seek (t : Q) (s : State) : State :=
  set_video t (video_paused s) s.

Definition setIsPlaying (b : bool) (s : State) : State :=
  mkState (video_currentTime s) (video_paused s) b (activeClip s)
          (showCaptions s) (currentTime s) (progress s) (isExporting s)
          (exportProgress s) (mediaRecorder s) (recordedChunks s).

Definition setCurrentTime (t : Q) (s : State) : State :=
  mkState (video_currentTime s) (video_paused s) (isPlaying s) (activeClip s)
          (showCaptions s) t (progress s) (isExporting s)
          (exportProgress s) (mediaRecorder s) (recordedChunks s).

Definition setProgress (p : jsnum) (s : State) : State :=
  mkState (video_currentTime s) (video_paused s) (isPlaying s) (activeClip s)
          (showCaptions s) (currentTime s) p (isExporting s)
          (exportProgress s) (mediaRecorder s) (recordedChunks s).

Definition setIsExporting (b : bool) (s : State) : State :=
  mkState (video_currentTime s) (video_paused s) (isPlaying s) (activeClip s)
          (showCaptions s) (currentTime s) (progress s) b
          (exportProgress s) (mediaRecorder s) (recordedChunks s).

Definition setExportProgress (p : jsnum) (s : State) : State :=
  mkState (video_currentTime s) (video_paused s) (isPlaying s) (activeClip s)
          (showCaptions s) (currentTime s) (progress s) (isExporting s)
          p (mediaRecorder s) (recordedChunks s).

Definition setActiveClip (c : Clip.t) (s : State) : State :=
  mkState (video_currentTime s) (video_paused s) (isPlaying s) (Some c)
          (showCaptions s) (currentTime s) (progress s) (isExporting s)
          (exportProgress s) (mediaRecorder s) (recordedChunks s).

Definition set_mediaRecorder (r : option MediaRecorder) (s : State) : State :=
  mkState (video_currentTime s) (video_paused s) (isPlaying s) (activeClip s)
          (showCaptions s) (currentTime s) (progress s) (isExporting s)
          (exportProgress s) r (recordedChunks s).

Definition set_recordedChunks (l : list Blob) (s : State) : State :=
  mkState (video_currentTime s) (video_paused s) (isPlaying s) (activeClip s)
          (showCaptions s) (currentTime s) (progress s) (isExporting s)
          (exportProgress s) (mediaRecorder s) l.

(** [(currentClipTime / clipDuration) * 100] *)
Definition percent (currentClipTime clipDuration : Q) : jsnum :=
  mul (div (Fin currentClipTime) (Fin clipDuration)) (Fin 100).

(** [finishExport]: stop the recorder unless it is already inactive, and
    pause the video.  [recorder.stop()] makes the recorder inactive at once
    and queues its [stop] event. *)
Definition finishExport (s : State) : State * list Effect :=
  match mediaRecorder s with
  | Some r =>
      if negb (isInactive (state r))
      then
        let r' := mkRecorder inactive (mimeType r) (withAudioTrack r)
                             (capturedClip r) true in
        (video_pause (set_mediaRecorder (Some r') s), [CaptureStopped])
      else (s, [])
  | None => (s, [])
  end.

(** [handleTimeUpdate], with [isExporting] the value the handler closed
    over. *)
Definition handleTimeUpdate (s : State) : State * list Effect :=
  match activeClip s with
  | None => (s, [])
  | Some clip =>
      let vidTime := video_currentTime s in
      let clipDuration := (Clip.endSeconds clip - Clip.startSeconds clip)%Q in
      let currentClipTime := Qmax 0 (vidTime - Clip.startSeconds clip)%Q in
      let s1 := setProgress (percent currentClipTime clipDuration)
                            (setCurrentTime currentClipTime s) in
      let '(s2, eff) :=
        if Qle_bool (Clip.endSeconds clip) vidTime
        then
          if isExporting s then finishExport s1
          else (setIsPlaying false
                  (video_seek (Clip.startSeconds clip) (video_pause s1)), [])
        else (s1, []) in
      let s3 :=
        if isExporting s
        then setExportProgress (percent currentClipTime clipDuration) s2
        else s2 in
      (s3, eff)
  end.

Definition mimeTypeFor (pf : Platform) : JSString.t :=
  if vp9Supported pf then of_string "video/webm;codecs=vp9"
  else of_string "video/webm".

(** The [download] attribute set by [recorder.onstop]. *)
Definition downloadName (clip : Clip.t) : JSString.t :=
  replaceOutside isAlnum underscore (Clip.title clip) ++ of_string ".webm".

(** [handleDownloadClip] up to the [play()] call; the outcome of the play
    promise arrives later as an event. *)
Definition handleDownloadClip (pf : Platform) (s : State) : State * list Effect :=
  match activeClip s with
  | None => (s, [])
  | Some clip =>
      let s1 := set_recordedChunks []
                  (setExportProgress (Fin 0) (setIsExporting true s)) in
      let s2 := video_seek (Clip.startSeconds clip) (video_pause s1) in
      let mime := mimeTypeFor pf in
      let recorder := mkRecorder recording mime (audioTrackPresent pf) clip false in
      let s3 := set_mediaRecorder (Some recorder) s2 in
      (video_play s3, [CaptureStarted mime; PlayCalled])
  end.

(** [recorder.ondataavailable] *)
Definition ondataavailable (data : Blob) (s : State) : State :=
  if (0 <? Z.of_nat (List.length data))
  then set_recordedChunks (recordedChunks s ++ [data]) s
  else s.

(** [recorder.onstop] of recorder [r] *)
Definition onstop (r : MediaRecorder) (s : State) : State * list Effect :=
  let blob := List.concat (recordedChunks s) in
  let clip := capturedClip r in
  let s1 := setExportProgress (Fin 0) (setIsExporting false s) in
  (video_seek (Clip.startSeconds clip) s1, [Downloaded (downloadName clip) blob]).

(** The [catch] handler of the play promise in [handleDownloadClip]. *)
Definition exportPlayRejected (s : State) : State * list Effect :=
  (setIsExporting false s, [ConsoleError "Export playback failed"]).

(** [playClip] *)
Definition playClip (clip : Clip.t) (s : State) : State * list Effect :=
  let s1 := video_seek (Clip.startSeconds clip) (setActiveClip clip s) in
  let s2 := setProgress (Fin 0) (setCurrentTime 0 s1) in
  (video_play s2, [PlayCalled]).

(** What reaches the component from outside. *)
Inductive Event : Type :=
| TimeUpdate (t : Q)          (* the video reports position [t] *)
| ClipClicked (clip : Clip.t) (* a click in the clip list *)
| VideoPlay                   (* onPlay *)
| VideoPause                  (* onPause *)
| DataAvailable (data : Blob) (* the recorder delivers a chunk *)
| RecorderStop                (* the recorder's queued stop event *)
| ExportPlayRejected.         (* the export's play promise is rejected *)

Definition step (s : State) (e : Event) : State * list Effect :=
  match e with
  | TimeUpdate t => handleTimeUpdate (video_seek t s)
  | ClipClicked clip => if isExporting s then (s, []) else playClip clip s
  | VideoPlay => (if isExporting s then s else setIsPlaying true s, [])
  | VideoPause => (if isExporting s then s else setIsPlaying false s, [])
  | DataAvailable data =>
      match mediaRecorder s with
      | Some _ => (ondataavailable data s, [])
      | None => (s, [])
      end
  | RecorderStop =>
      match mediaRecorder s with
      | Some r =>
          if stopQueued r
          then
            let r' := mkRecorder (state r) (mimeType r) (withAudioTrack r)
                                 (capturedClip r) false in
            onstop r (set_mediaRecorder (Some r') s)
          else (s, [])
      | None => (s, [])
      end
  | ExportPlayRejected => exportPlayRejected s
  end.

(** A run of events, with the effects in the order they happen. *)
Fixpoint run (s : State) (evs : list Event) : State * list Effect :=
  match evs with
  | [] => (s, [])
  | e :: rest =>
      let '(s1, eff1) := step s e in
      let '(s2, eff2) := run s1 rest in
      (s2, eff1 ++ eff2)
  end.

End Player.

(* ------------------------------------------------------------------ *)
(** ** Vocabulary of the statements *)

Module Spec.
Import JSString JSNum.

(** A run of decimal digits. *)
Definition allDigits (s : JSString.t) : Prop :=
  Forall (fun c => isDigit c = true) s.

(** A number that is not negative: a finite value from 0 on, or
    [Infinity]. *)
Definition nonNegative (x : jsnum) : Prop :=
  x = PInf \/ exists q, x = Fin q /\ (0 <= q)%Q.

(** The whole number of seconds that the colon-separated runs of digits
    denote: minutes and seconds, or hours, minutes and seconds; 0 for any
    other number of runs. *)
Definition wholeSeconds (parts : list JSString.t) : Z :=
  match parts with
  | [m; s] =>
      GeminiService.digitsValueFrom 0 m * 60 + GeminiService.digitsValueFrom 0 s
  | [h; m; s] =>
      GeminiService.digitsValueFrom 0 h * 3600
      + GeminiService.digitsValueFrom 0 m * 60
      + GeminiService.digitsValueFrom 0 s
  | _ => 0
  end.

(** The caption window as the code tests it, both ends included. *)
Definition inClosedWindow (c : Caption.t) (t : Q) : Prop :=
  (Caption.startSeconds c <= t /\ t <= Caption.endSeconds c)%Q.

(** The caption window with its end excluded. *)
Definition inHalfOpenWindow (c : Caption.t) (t : Q) : Prop :=
  (Caption.startSeconds c <= t /\ t < Caption.endSeconds c)%Q.

(** [c] is the first caption of [captions], in list order, that satisfies
    [P]. *)
Definition firstCaption (P : Caption.t -> Prop) (captions : list Caption.t)
           (c : Caption.t) : Prop :=
  exists k, nth_error captions k = Some c /\ P c /\
    forall j c', (j < k)%nat -> nth_error captions j = Some c' -> ~ P c'.

(** *** The word-highlight rule in the words of the specification *)

(** A word's length plus one trailing space. *)
Definition paddedLength (w : JSString.t) : Z := JSString.length w + 1.

(** The running character count before word [i]. *)
Definition accumulatedChars (words : list JSString.t) (i : nat) : Z :=
  fold_right (fun w a => paddedLength w + a) 0 (firstn i words).

(** [D = c.endSeconds - c.startSeconds] *)
Definition captionD (c : Caption.t) : Q :=
  (Caption.endSeconds c - Caption.startSeconds c)%Q.

(** [T = t - c.startSeconds] *)
Definition elapsedT (c : Caption.t) (t : Q) : Q :=
  (t - Caption.startSeconds c)%Q.

(** [perCharDuration = D / max(1, totalChars)], [totalChars] the length of
    the full caption text. *)
Definition perCharDuration (c : Caption.t) : Q :=
  (captionD c / inject_Z (Z.max 1 (JSString.length (Caption.text c))))%Q.

(** The index as the code stores it: -1 for no active word. *)
Definition indexOf (o : option nat) : Z :=
  match o with Some i => Z.of_nat i | None => -1 end.

(** *** The words of a caption in the words of the specification *)

Definition nonEmpty (w : JSString.t) : bool :=
  match w with [] => false | _ :: _ => true end.

(** The text cut at every white-space code unit: between two neighbouring
    white-space code units, and before a leading or after a trailing one,
    the piece is empty. *)
Fixpoint pieces (text : JSString.t) : list JSString.t :=
  match text with
  | [] => [[]]
  | c :: r =>
      if isWhiteSpace c then [] :: pieces r
      else match pieces r with
           | p :: ps => (c :: p) :: ps
           | [] => [[c]]
           end
  end.

(** The words of a text: splitting the trimmed text on white space leaves
    the maximal runs of code units that are not white space, in order; a
    text without any leaves the one empty word. *)
Definition specWords (text : JSString.t) : list JSString.t :=
  match List.filter nonEmpty (pieces text) with
  | [] => [[]]
  | w :: ws => w :: ws
  end.

(** The rule over an arithmetic [A], for a caption given by its text and
    its two ends.  Word [i]'s window
    [[accumulatedChars * perCharDuration,
      (accumulatedChars + wordLength + 1) * perCharDuration)] contains [T]. *)
Definition ruleWindow {num : Type} (A : Arith.t num) (words : list JSString.t)
           (perCharDuration T : num) (i : nat) : bool :=
  match nth_error words i with
  | Some w =>
      let a := accumulatedChars words i in
      Arith.le A (Arith.mul A (Arith.ofInt A a) perCharDuration) T
      && Arith.lt A T
           (Arith.mul A (Arith.ofInt A (a + JSString.length w + 1)) perCharDuration)
  | None => false
  end.

(** The active word of the rule: with [D = endSeconds - startSeconds],
    [T = t - startSeconds] and
    [perCharDuration = D / max(1, totalChars)], the first word whose window
    contains [T]; failing that, the last word when [T >= 0.9 * D]; otherwise
    none. *)
Definition ruleActiveWord {num : Type} (A : Arith.t num) (text : JSString.t)
           (startSeconds endSeconds t : num) : option nat :=
  let words := specWords text in
  let D := Arith.sub A endSeconds startSeconds in
  let T := Arith.sub A t startSeconds in
  let perCharDuration :=
    Arith.div A D (Arith.ofInt A (Z.max 1 (JSString.length text))) in
  match find (ruleWindow A words perCharDuration T) (seq 0 (List.length words)) with
  | Some i => Some i
  | None =>
      if Arith.le A (Arith.mul A D (Arith.nineTenths A)) T
      then Some (List.length words - 1)%nat
      else None
  end.

(** A binary64 number given as a decimal with one digit after the point,
    as in [15.9]: the nearest binary64 value. *)
Definition tenths (n : Z) : PrimFloat.float :=
  PrimFloat.div (Arith.float_of_Z n) (Arith.float_of_Z 10).

(** The caption and the clip of the scenario. *)
Definition scenarioCaption : Caption.t :=
  Caption.mk (of_string "this is a test") (of_string "00:12") (of_string "00:16")
             12 16.

Definition scenarioClip : Clip.t :=
  Clip.mk (of_string "clip-0") (of_string "My first clip! (v2)")
          (of_string "00:10") (of_string "00:40") 10 40
          (of_string "A scenario") 7 [scenarioCaption].

(** *** Vocabulary for the playback tick and the export *)

Import Player.

Definition isCaptureStopped (e : Effect) : bool :=
  match e with CaptureStopped => true | _ => false end.

Definition isDownloaded (e : Effect) : bool :=
  match e with Downloaded _ _ => true | _ => false end.

(** The number of finalize events of a run: capture stops, and downloads. *)
Definition countStops (l : list Effect) : nat :=
  List.length (List.filter isCaptureStopped l).

Definition countDownloads (l : list Effect) : nat :=
  List.length (List.filter isDownloaded l).

(** [D], the duration of the clip. *)
Definition clipDuration (clip : Clip.t) : Q :=
  (Clip.endSeconds clip - Clip.startSeconds clip)%Q.

(** The seconds of the clip played when the video is at [t]; an export
    starts its playback at [startSeconds]. *)
Definition playedSeconds (clip : Clip.t) (t : Q) : Q :=
  (t - Clip.startSeconds clip)%Q.

(** A tick by which [D] seconds of the clip have been played. *)
Definition reachesBoundary (clip : Clip.t) (e : Event) : bool :=
  match e with
  | TimeUpdate t => Qle_bool (clipDuration clip) (playedSeconds clip t)
  | _ => false
  end.

Definition isRejection (e : Event) : bool :=
  match e with ExportPlayRejected => true | _ => false end.



(** The extension of a MIME type: a dot and the subtype, up to the
    parameters. *)
Fixpoint takeUntil (stop : code_unit) (s : JSString.t) : JSString.t :=
  match s with
  | [] => []
  | c :: r => if (c =? stop)%N then [] else c :: takeUntil stop r
  end.

Fixpoint dropThrough (stop : code_unit) (s : JSString.t) : JSString.t :=
  match s with
  | [] => []
  | c :: r => if (c =? stop)%N then r else dropThrough stop r
  end.

Definition formatExtension (mime : JSString.t) : JSString.t :=
  46%N :: takeUntil 59%N (dropThrough 47%N mime).

(** A state of the component with [clip] selected, stopped at its start. *)
Definition stoppedAt (clip : Clip.t) : State :=
  mkState (Clip.startSeconds clip) true false (Some clip) true 0 (Fin 0)
          false (Fin 0) None [].

(** The progress in percent that the specification's Time Mapper gives
    before any clamping: [max(0, t - startSeconds) / clipDuration * 100]. *)
Definition progressPercent (clip : Clip.t) (t : Q) : Q :=
  (Qmax 0 (t - Clip.startSeconds clip) / clipDuration clip * 100)%Q.

(** A clip of length zero, and a caption after the end of the scenario
    clip. *)
Definition emptyClip : Clip.t :=
  Clip.mk (of_string "clip-1") (of_string "Empty") (of_string "00:10")
          (of_string "00:10") 10 10 (of_string "No duration") 1 [].

Definition lateCaption : Caption.t :=
  Caption.mk (of_string "too late") (of_string "00:41") (of_string "00:45") 41 45.

(** The recorder held by the component is in state [st], with its stop
    event queued or not. *)
Definition recorderIs (st : RecordingState) (queued : bool) (s : State) : Prop :=
  exists r, mediaRecorder s = Some r /\ state r = st /\ stopQueued r = queued.

End Spec.

(* ------------------------------------------------------------------ *)
(** ** Numbers to strings, and the two [formatTime] helpers *)

Module TimeFormat.
Import JSString JSNum.

(** The decimal digits of a non-negative integer, least significant first
    into [acc]; [fuel] bounds the number of digits. *)
Fixpoint digitsFuel (fuel : nat) (n : Z) (acc : JSString.t) : JSString.t :=
  match fuel with
  | O => acc
  | S f =>
      let acc' := Z.to_N (48 + n mod 10) :: acc in
      if n <? 10 then acc' else digitsFuel f (n / 10) acc'
  end.

Definition natToString (n : Z) : JSString.t :=
  digitsFuel (S (Z.to_nat (Z.log2 n))) n [].

(** [n.toString()] for a whole number [n] of magnitude below [2^53]: there
    every whole number is a binary64 value, and it is written with all its
    decimal digits.  From [2^53] on the digits are the shortest that read
    back as the same binary64 value, in exponent notation from [10^21]; that
    notation is not described here, and the result is [None]. *)
Definition toString (n : Z) : option JSString.t :=
  if 2 ^ 53 <=? Z.abs n then None
  else Some (if n <? 0 then 45%N :: natToString (- n) else natToString n).

(** [s.padStart(2, '0')] *)
Definition padStart2 (s : JSString.t) : JSString.t :=
  List.repeat 48%N (2 - List.length s) ++ s.

(** Rounding toward zero, and the remainder [x % y] built on it, for finite
    numbers. *)
Definition Qtrunc (q : Q) : Z :=
  if Qle_bool 0 q then Qfloor q else Qceiling q.

Definition remainder (x y : Q) : Q :=
  (x - y * inject_Z (Qtrunc (x / y)))%Q.

(** [formatTime] of the upload form: [MM:SS], both fields padded.  Of an
    infinite time the minutes are infinite and the seconds, a remainder,
    are [NaN]; both are written by name, and no padding applies. *)
Definition formatTimeUploader (seconds : jsnum) : option JSString.t :=
  match seconds with
  | Fin x =>
      let m := Qfloor (x / 60) in
      let s := Qfloor (remainder x 60) in
      match toString m, toString s with
      | Some mm, Some ss => Some (padStart2 mm ++ colon :: padStart2 ss)
      | _, _ => None
      end
  | PInf => Some (of_string "Infinity:NaN")
  | NInf => Some (of_string "-Infinity:NaN")
  | NaN => Some (of_string "NaN:NaN")
  end.

(** [formatTime] of the player: [M:SS], only the seconds padded. *)
Definition formatTimePlayer (seconds : jsnum) : option JSString.t :=
  match seconds with
  | Fin x =>
      let m := Qfloor (x / 60) in
      let s := Qfloor (remainder x 60) in
      match toString m, toString s with
      | Some mm, Some ss => Some (mm ++ colon :: padStart2 ss)
      | _, _ => None
      end
  | PInf => Some (of_string "Infinity:NaN")
  | NInf => Some (of_string "-Infinity:NaN")
  | NaN => Some (of_string "NaN:NaN")
  end.

End TimeFormat.

(* ------------------------------------------------------------------ *)
(** ** The player component: seeking *)

Module Controls.
Import JSString JSNum Player.


End Controls.

(* ------------------------------------------------------------------ *)
(** ** The player component: the layout of the caption line *)

Module Layout.
Section WithCanvas.

(** [ctx.measureText(w.toUpperCase()).width] at the font in use, the width
    of a space, and the width of the canvas. *)
Variable measureText : JSString.t -> Q.
Variable spaceWidth : Q.
Variable canvasWidth : Q.

(** [wordMetrics.reduce((acc, m) => acc + m.width, 0)
     + (words.length - 1) * spaceWidth] *)
Definition totalTextWidth (words : list JSString.t) : Q :=
  (fold_left (fun acc m => acc + m) (List.map measureText words) 0
   + (inject_Z (Z.of_nat (List.length words)) - 1) * spaceWidth)%Q.

(** The draw loop: the [x] each word is drawn at, [currentX] advancing by
    the word's width and a space. *)
Fixpoint drawLoop (currentX : Q) (words : list JSString.t) : list Q :=
  match words with
  | [] => []
  | w :: rest =>
      currentX :: drawLoop (currentX + measureText w + spaceWidth)%Q rest
  end.

Definition startX (words : list JSString.t) : Q :=
  ((canvasWidth - totalTextWidth words) / 2)%Q.

Definition wordPositions (words : list JSString.t) : list Q :=
  drawLoop (startX words) words.

End WithCanvas.
End Layout.

(* ------------------------------------------------------------------ *)
(** ** The upload form *)

Module Uploader.
Import JSString.

Record File : Type := mkFile {
  name : JSString.t;
  size : Z;
  type : JSString.t
}.

Record AnalysisConfig : Type := mkConfig {
  clipCount : Z;
  timeRange : option (JSString.t * JSString.t)
}.

(** [url.split('/').pop()?.split('#')[0].split('?')[0]
     || "downloaded_video.mp4"] *)
Definition fileNameFromUrl (url : JSString.t) : JSString.t :=
  let segment := List.last (splitOn 47%N url) [] in
  let beforeHash := List.hd [] (splitOn 35%N segment) in
  let beforeQuery := List.hd [] (splitOn 63%N beforeHash) in
  match beforeQuery with
  | [] => of_string "downloaded_video.mp4"
  | _ => beforeQuery
  end.

(** The staging and configuration state of the form. *)
Record State : Type := mkState {
  selectedFile : option File;
  videoDuration : Q;
  useCustomRange : bool;
  startTime : JSString.t;
  endTime : JSString.t;
  chosenClipCount : Z;
  errorMessage : option string
}.

Definition setErrorMessage (m : option string) (s : State) : State :=
  mkState (selectedFile s) (videoDuration s) (useCustomRange s) (startTime s)
          (endTime s) (chosenClipCount s) m.

(** [handleSubmit]: the new state and the call of [onProcessStart], if it
    is made. *)
Definition handleSubmit (s : State) : State * option (File * AnalysisConfig) :=
  match selectedFile s with
  | None => (s, None)
  | Some file =>
      if JSNum.Qltb (videoDuration s) 30
      then (setErrorMessage
              (Some "Video is too short! To generate 30-60 second clips, please upload a video longer than 30 seconds."%string)
              s, None)
      else
        let config :=
          mkConfig (chosenClipCount s)
                   (if useCustomRange s then Some (startTime s, endTime s)
                    else None) in
        (s, Some (file, config))
  end.

End Uploader.

(* ------------------------------------------------------------------ *)
(** ** [services/geminiService.ts]: the payload and the response text *)

Module Response.
Import JSString.

Fixpoint startsWith (p s : JSString.t) : bool :=
  match p, s with
  | [], _ => true
  | _ :: _, [] => false
  | a :: p', b :: s' => (a =? b)%N && startsWith p' s'
  end.

(** [s.replace(/pat/g, '')] for a literal, non-empty [pat]: the matches are
    taken from left to right without overlap; [skip] counts the code units
    of the current match still to drop. *)
Fixpoint removeAllFrom (pat : JSString.t) (skip : nat) (s : JSString.t)
  : JSString.t :=
  match s with
  | [] => []
  | a :: r =>
      match skip with
      | S k => removeAllFrom pat k r
      | O =>
          if startsWith pat s
          then removeAllFrom pat (List.length pat - 1) r
          else a :: removeAllFrom pat 0 r
      end
  end.

Definition removeAll (pat s : JSString.t) : JSString.t := removeAllFrom pat 0 s.

Definition fence : JSString.t := [96%N; 96%N; 96%N].
Definition fenceJson : JSString.t := fence ++ of_string "json".

(** [responseText.replace(/```json/g, '').replace(/```/g, '').trim()] *)
Definition cleanedText (responseText : JSString.t) : JSString.t :=
  trim (removeAll fence (removeAll fenceJson responseText)).

(** [base64String.split(',')[1]], [None] for [undefined]. *)
Definition base64Data (base64String : JSString.t) : option JSString.t :=
  nth_error (splitOn 44%N base64String) 1.

End Response.

(* ------------------------------------------------------------------ *)
(** ** The application shell *)

Module App.
Import JSString.

Inductive AppState : Type := IDLE | UPLOADING | ANALYZING | RESULTS | ERROR.

(** An object URL, by the order of its creation. *)
Definition ObjectUrl := nat.

Record State : Type := mkState {
  appState : AppState;
  videoFile : option Uploader.File;
  videoUrl : option ObjectUrl;
  videoMetadata : option (Uploader.File * ObjectUrl); (* name, size, type; url *)
  clips : list Clip.t;
  error : option string;
  (* the browser *)
  created : nat;              (* object URLs created so far *)
  revoked : list ObjectUrl;   (* object URLs revoked so far *)
  alerts : nat                (* alert() calls so far *)
}.

Definition initial : State := mkState IDLE None None None [] None 0 [] 0.

(** [handleProcessStart] followed by the synchronous part of
    [handleAnalysis]; [started] tells that [analyzeVideoForClips] was
    called. *)
Definition handleProcessStart (file : Uploader.File) (s : State) : State * bool :=
  if 250 * 1024 * 1024 <? Uploader.size file
  then (mkState (appState s) (videoFile s) (videoUrl s) (videoMetadata s)
                (clips s) (error s) (created s) (revoked s) (S (alerts s)),
        false)
  else
    let url := created s in
    (mkState ANALYZING (Some file) (Some url) (Some (file, url)) (clips s) None
             (S (created s)) (revoked s) (alerts s), true).

(** [handleAnalysis] after the promise is fulfilled, and after it is
    rejected. *)
Definition analysisFulfilled (results : list Clip.t) (s : State) : State :=
  mkState RESULTS (videoFile s) (videoUrl s) (videoMetadata s) results (error s)
          (created s) (revoked s) (alerts s).

Definition analysisRejected (s : State) : State :=
  mkState ERROR (videoFile s) (videoUrl s) (videoMetadata s) (clips s)
          (Some "Failed to analyze video."%string)
          (created s) (revoked s) (alerts s).

Definition resetApp (s : State) : State :=
  let revoked' :=
    match videoUrl s with Some u => u :: revoked s | None => revoked s end in
  mkState IDLE None None None [] None (created s) revoked' (alerts s).

Inductive Event : Type :=
| ProcessStart (file : Uploader.File)
| AnalysisFulfilled (results : list Clip.t)
| AnalysisRejected
| Reset.

Definition step (s : State) (e : Event) : State :=
  match e with
  | ProcessStart file => fst (handleProcessStart file s)
  | AnalysisFulfilled results => analysisFulfilled results s
  | AnalysisRejected => analysisRejected s
  | Reset => resetApp s
  end.

Definition run (s : State) (evs : list Event) : State := fold_left step evs s.

(** The player is mounted: [appState === RESULTS && videoUrl]. *)
Definition playerShown (s : State) : option ObjectUrl :=
  match appState s with
  | RESULTS => videoUrl s
  | _ => None
  end.

End App.

(* ------------------------------------------------------------------ *)
(** ** Vocabulary of the further properties *)

Module Terms.
Import JSString JSNum Player.

(** The non-empty chunks a run of events delivers, in order of arrival. *)
Fixpoint chunksOf (evs : list Event) : list Blob :=
  match evs with
  | [] => []
  | DataAvailable data :: rest =>
      if (0 <? Z.of_nat (List.length data)) then data :: chunksOf rest
      else chunksOf rest
  | _ :: rest => chunksOf rest
  end.

(** [p] occurs in [s] as a run of consecutive code units. *)
Definition occursIn (p s : JSString.t) : Prop :=
  exists a b, s = a ++ p ++ b.

(** Words written one after the other with a single space between them. *)
Fixpoint joinWords (ws : list JSString.t) : JSString.t :=
  match ws with
  | [] => []
  | [w] => w
  | w :: rest => w ++ 32%N :: joinWords rest
  end.

(** A word: not empty and free of white space. *)
Definition isWord (w : JSString.t) : Prop :=
  w <> [] /\ Forall (fun ch => isWhiteSpace ch = false) w.

(** The recorder of the export of [clip] is in place and the chunk buffer
    holds what the events [done] delivered. *)
Definition collecting (clip : Clip.t) (done : list Event) (s : State) : Prop :=
  recordedChunks s = chunksOf done
  /\ exists r, mediaRecorder s = Some r /\ capturedClip r = clip.

(** The text starts with a backquote. *)
Definition startsWithTick (s : JSString.t) : bool :=
  match s with
  | c :: _ => (c =? 96)%N
  | [] => false
  end.

(** The URL in use was created and not revoked; only created URLs are
    revoked. *)
Definition urlsConsistent (s : App.State) : Prop :=
  (forall u, App.videoUrl s = Some u ->
             (u < App.created s)%nat /\ ~ In u (App.revoked s))
  /\ (forall u, In u (App.revoked s) -> (u < App.created s)%nat).

(** The submit button of the upload form, its [onProcessStart] being the
    shell's [handleProcessStart]: the shell's new state and whether the
    analysis was started. *)
Definition submit (form : Uploader.State) (shell : App.State) : App.State * bool :=
  match snd (Uploader.handleSubmit form) with
  | Some (file, _) => App.handleProcessStart file shell
  | None => (shell, false)
  end.

(** While exporting, a recorder that is no longer active means a paused
    video. *)
Definition pausedOnceStopped (s : State) : Prop :=
  isExporting s = true ->
  forall r, mediaRecorder s = Some r -> state r = inactive ->
            video_paused s = true.

End Terms.

(* ------------------------------------------------------------------ *)
(** * Properties *)

(** ** Numbers *)

Section NumberFacts.
Import JSNum.

Lemma Qltb_iff (x y : Q) : Qltb x y = true <-> (x < y)%Q.
Proof.
  unfold Qltb. rewrite negb_true_iff. split; intro H.
  - apply Qnot_le_lt. intro Hle. apply Qle_bool_iff in Hle. congruence.
  - destruct (Qle_bool y x) eqn:E; [|reflexivity].
    apply Qle_bool_iff in E. exfalso. apply (Qlt_not_le _ _ H E).
Qed.

Lemma Qle_bool_false (x y : Q) : Qle_bool x y = false <-> (y < x)%Q.
Proof.
  rewrite <- Qltb_iff. unfold Qltb. rewrite negb_true_iff. reflexivity.
Qed.

Lemma Qltb_false (x y : Q) : Qltb x y = false <-> (y <= x)%Q.
Proof.
  unfold Qltb. rewrite negb_false_iff. apply Qle_bool_iff.
Qed.

End NumberFacts.

(** ** [parseTime] *)

Section ParseTimeFacts.
Import JSString JSNum GeminiService Spec.

Lemma splitOnFrom_digits (s cur : JSString.t) :
  Forall (fun c => isDigitOrColon c = true) s -> allDigits cur ->
  Forall allDigits (splitOnFrom colon cur s).
Proof.
  revert cur. induction s as [|c r IH]; intros cur Hs Hcur; simpl.
  - constructor; [|constructor]. unfold allDigits. apply Forall_rev. exact Hcur.
  - inversion Hs as [|c' r' Hc Hr]; subst.
    destruct (N.eqb_spec c colon) as [->|Hne].
    + constructor.
      * unfold allDigits. apply Forall_rev. exact Hcur.
      * apply IH; [exact Hr | constructor].
    + apply IH; [exact Hr|]. constructor; [|exact Hcur].
      unfold isDigitOrColon in Hc. apply orb_true_iff in Hc.
      destruct Hc as [Hd|Hc]; [exact Hd|].
      apply N.eqb_eq in Hc. contradiction.
Qed.

(** Every part that [parseTime] converts is a run of digits. *)
Lemma parts_digits (timeStr : JSString.t) :
  Forall allDigits (splitOn colon (removeOutside isDigitOrColon timeStr)).
Proof.
  apply splitOnFrom_digits; [|constructor].
  unfold removeOutside. apply Forall_forall. intros c Hc.
  apply filter_In in Hc. tauto.
Qed.

Lemma digitsValueFrom_bounds (s : JSString.t) (acc : Z) :
  allDigits s -> 0 <= acc ->
  acc * 10 ^ Z.of_nat (List.length s) <= digitsValueFrom acc s
    < (acc + 1) * 10 ^ Z.of_nat (List.length s).
Proof.
  revert acc. induction s as [|c r IH]; intros acc Hs Hacc.
  - simpl. lia.
  - inversion Hs as [|c' r' Hc Hr]; subst.
    unfold isDigit in Hc. apply andb_true_iff in Hc. destruct Hc as [H1 H2].
    apply N.leb_le in H1, H2.
    cbn [digitsValueFrom List.length].
    rewrite Nat2Z.inj_succ, Z.pow_succ_r by lia.
    specialize (IH (10 * acc + (Z.of_N c - 48)) Hr ltac:(lia)).
    assert (0 < 10 ^ Z.of_nat (List.length r)) by (apply Z.pow_pos_nonneg; lia).
    nia.
Qed.

Lemma digitsValue_small (s : JSString.t) :
  allDigits s -> (List.length s <= 300)%nat ->
  0 <= digitsValueFrom 0 s < 10 ^ 300.
Proof.
  intros Hs Hlen.
  pose proof (digitsValueFrom_bounds s 0 Hs ltac:(lia)) as [Hlo Hhi].
  split; [lia|].
  eapply Z.lt_le_trans; [exact Hhi|].
  rewrite Z.mul_1_l. apply Z.pow_le_mono_r; lia.
Qed.

(** Below [2^53] the rounding keeps the whole number. *)
Lemma roundToDouble_exact (n : Z) : n < 2 ^ 53 -> roundToDouble n = n.
Proof.
  intro H. unfold roundToDouble.
  destruct (Z.ltb_spec n (2 ^ 53)) as [_|Hb]; [reflexivity | lia].
Qed.

(** The rounding does not leave the binade: a number below [2^k] is
    rounded to at most [2^k]. *)
Lemma roundToDouble_bounds (n k : Z) :
  0 <= n < 2 ^ k -> 0 <= k -> 0 <= roundToDouble n <= 2 ^ k.
Proof.
  intros [H0 Hk] Hk0. unfold roundToDouble.
  destruct (Z.ltb_spec n (2 ^ 53)) as [Hs|Hb]; [lia|].
  assert (H53 : 0 < 2 ^ 53) by (apply Z.pow_pos_nonneg; lia).
  assert (Hn : 0 < n) by lia.
  destruct (Z.log2_spec n Hn) as [L1 L2].
  assert (HL : 53 <= Z.log2 n) by (apply Z.log2_le_pow2; lia).
  assert (HLk : Z.log2 n < k) by (apply Z.log2_lt_pow2; lia).
  remember (Z.log2 n - 52) as e eqn:Ee.
  assert (He : 0 < 2 ^ e) by (apply Z.pow_pos_nonneg; lia).
  assert (Hq : n / 2 ^ e < 2 ^ 53).
  { apply Z.div_lt_upper_bound; [exact He|].
    rewrite <- Z.pow_add_r by lia.
    replace (e + 53) with (Z.succ (Z.log2 n)) by lia. exact L2. }
  assert (Hq0 : 0 <= n / 2 ^ e) by (apply Z.div_pos; lia).
  assert (Hdm : 2 ^ e * (n / 2 ^ e) <= n) by (apply Z.mul_div_le; lia).
  assert (Hup : 2 ^ 53 * 2 ^ e <= 2 ^ k).
  { rewrite <- Z.pow_add_r by lia. apply Z.pow_le_mono_r; lia. }
  cbv zeta.
  destruct ((2 ^ (e - 1) <? n mod 2 ^ e)
            || ((n mod 2 ^ e =? 2 ^ (e - 1)) && Z.odd (n / 2 ^ e))); nia.
Qed.

Lemma double_exact (n : Z) : 0 <= n < 2 ^ 53 -> double n = Fin (inject_Z n).
Proof.
  intros [H0 H1]. unfold double. rewrite (roundToDouble_exact n H1).
  destruct (Z.leb_spec (2 ^ 1024) n) as [H|H]; [|reflexivity].
  exfalso. assert (2 ^ 53 < 2 ^ 1024) by (apply Z.pow_lt_mono_r; lia). lia.
Qed.

Lemma double_finite (n k : Z) :
  0 <= n < 2 ^ k -> 0 <= k < 1024 ->
  exists m, double n = Fin (inject_Z m) /\ 0 <= m <= 2 ^ k.
Proof.
  intros Hn Hk. pose proof (roundToDouble_bounds n k Hn ltac:(lia)) as Hb.
  unfold double.
  destruct (Z.leb_spec (2 ^ 1024) (roundToDouble n)) as [H|H].
  - exfalso. assert (2 ^ k < 2 ^ 1024) by (apply Z.pow_lt_mono_r; lia). lia.
  - exists (roundToDouble n). split; [reflexivity | exact Hb].
Qed.

Lemma double_nonNegative (n : Z) : 0 <= n -> nonNegative (double n).
Proof.
  intro Hn. unfold double.
  destruct (2 ^ 1024 <=? roundToDouble n); [left; reflexivity|].
  right. eexists. split; [reflexivity|].
  change 0%Q with (inject_Z 0). rewrite <- Zle_Qle.
  destruct (Z.eq_dec n 0) as [->|Hne]; [vm_compute; discriminate|].
  destruct (Z.log2_spec n ltac:(lia)) as [_ L2].
  apply (roundToDouble_bounds n (Z.succ (Z.log2 n))); [lia|].
  pose proof (Z.log2_nonneg n). lia.
Qed.

Lemma Qfloor_nonneg (q : Q) : (0 <= q)%Q -> 0 <= Qfloor q.
Proof.
  intro H. change 0 with (Qfloor (inject_Z 0)) at 1.
  apply Qfloor_resp_le. exact H.
Qed.

Lemma times_nonNegative (x : jsnum) (k : Q) :
  nonNegative x -> (0 < k)%Q -> nonNegative (times x (Fin k)).
Proof.
  intros [->|[q [-> Hq]]] Hk; cbn [times].
  - cbn [mul]. unfold sign. rewrite (proj2 (Qltb_iff 0 k) Hk). left. reflexivity.
  - apply double_nonNegative.
    apply Z.mul_nonneg_nonneg; apply Qfloor_nonneg; lra.
Qed.

Lemma plus_nonNegative (x y : jsnum) :
  nonNegative x -> nonNegative y -> nonNegative (plus x y).
Proof.
  intros [->|[p [-> Hp]]] [->|[q [-> Hq]]]; cbn [plus add];
    try (left; reflexivity).
  apply double_nonNegative.
  apply Z.add_nonneg_nonneg; apply Qfloor_nonneg; assumption.
Qed.

Lemma Number_nonNegative (s : JSString.t) : allDigits s -> nonNegative (Number s).
Proof.
  intro Hs. unfold Number. apply double_nonNegative.
  pose proof (digitsValueFrom_bounds s 0 Hs ltac:(lia)) as [Hlo _]. lia.
Qed.

Lemma times_Z (a k : Z) :
  times (Fin (inject_Z a)) (Fin (inject_Z k)) = double (a * k).
Proof. cbn [times]. rewrite !Qfloor_Z. reflexivity. Qed.

Lemma plus_Z (a b : Z) :
  plus (Fin (inject_Z a)) (Fin (inject_Z b)) = double (a + b).
Proof. cbn [plus]. rewrite !Qfloor_Z. reflexivity. Qed.

(** Minutes times 60 plus seconds, all of it exact below [2^53]. *)
Lemma seconds_exact (m s : Z) :
  0 <= m -> 0 <= s -> m * 60 + s < 2 ^ 53 ->
  plus (times (double m) (Fin 60)) (double s) = Fin (inject_Z (m * 60 + s)).
Proof.
  intros Hm Hs H.
  rewrite (double_exact m), (double_exact s) by lia.
  change (Fin 60) with (Fin (inject_Z 60)).
  rewrite times_Z, (double_exact (m * 60)) by lia.
  rewrite plus_Z. apply double_exact. lia.
Qed.

(** Numbers within [k] bits stay finite: a conversion, a product and a sum
    each cost at most one bit more than the exact result. *)
Lemma double_le (n k : Z) :
  0 <= n <= 2 ^ k -> 0 <= k < 1023 ->
  exists m, double n = Fin (inject_Z m) /\ 0 <= m <= 2 ^ (k + 1).
Proof.
  intros Hn Hk. apply double_finite; [|lia].
  assert (2 ^ k < 2 ^ (k + 1)) by (apply Z.pow_lt_mono_r; lia). lia.
Qed.

Lemma times_le (m c k j : Z) :
  0 <= m <= 2 ^ k -> 0 <= c <= 2 ^ j -> 0 <= k -> 0 <= j -> k + j < 1023 ->
  exists r, times (Fin (inject_Z m)) (Fin (inject_Z c)) = Fin (inject_Z r)
            /\ 0 <= r <= 2 ^ (k + j + 1).
Proof.
  intros Hm Hc Hk Hj Hkj. rewrite times_Z. apply double_le; [|lia].
  rewrite Z.pow_add_r by lia. nia.
Qed.

Lemma plus_le (a b i j k : Z) :
  0 <= a <= 2 ^ i -> 0 <= b <= 2 ^ j -> 0 <= i <= k -> 0 <= j <= k ->
  k + 1 < 1023 ->
  exists r, plus (Fin (inject_Z a)) (Fin (inject_Z b)) = Fin (inject_Z r)
            /\ 0 <= r <= 2 ^ (k + 2).
Proof.
  intros Ha Hb Hi Hj Hk. rewrite plus_Z.
  replace (k + 2) with ((k + 1) + 1) by lia. apply double_le; [|lia].
  assert (2 ^ i <= 2 ^ k) by (apply Z.pow_le_mono_r; lia).
  assert (2 ^ j <= 2 ^ k) by (apply Z.pow_le_mono_r; lia).
  replace (k + 1) with (Z.succ k) by lia. rewrite Z.pow_succ_r by lia. lia.
Qed.

Lemma pow10_300 : 10 ^ 300 <= 2 ^ 997.
Proof. vm_compute. discriminate. Qed.

Lemma Number_le (s : JSString.t) :
  allDigits s -> (List.length s <= 300)%nat ->
  exists m, Number s = Fin (inject_Z m) /\ 0 <= m <= 2 ^ 998.
Proof.
  intros Hs Hl. pose proof (digitsValue_small s Hs Hl) as Hv.
  pose proof pow10_300 as HP.
  unfold Number. apply (double_le _ 997); [|lia].
  remember (2 ^ 997) as P. remember (10 ^ 300) as T. lia.
Qed.

End ParseTimeFacts.

Section ParseTimeClaim.
Import JSString JSNum GeminiService Spec.

Lemma parseTime_unfold (timeStr : JSString.t) :
  parseTime timeStr =
  match List.map Number (splitOn colon (removeOutside isDigitOrColon timeStr)) with
  | [p0; p1] => plus (times p0 (Fin 60)) p1
  | [p0; p1; p2] => plus (plus (times p0 (Fin 3600)) (times p1 (Fin 60))) p2
  | _ => Fin 0
  end.
Proof. destruct timeStr; reflexivity. Qed.

Lemma allDigits_value (s : JSString.t) : allDigits s -> 0 <= digitsValueFrom 0 s.
Proof.
  intro Hs. pose proof (digitsValueFrom_bounds s 0 Hs ltac:(lia)) as [Hlo _]. lia.
Qed.

(** C10 (amended): on every input string [parseTime] returns, without
    throwing, a number that is not negative.  When each colon-separated run
    of digits left after removing the other characters has at most 300
    digits, the result is finite.  When the whole number of seconds the runs
    denote (minutes*60 + seconds for two runs, hours*3600 + minutes*60 +
    seconds for three, 0 for any other shape, the empty string and a number
    without colon included) is below [2^53], the result is exactly that
    number. *)
Theorem parseTime_finite_shape (timeStr : JSString.t) :
  nonNegative (parseTime timeStr)
  /\ (Forall (fun p => (List.length p <= 300)%nat)
             (splitOn colon (removeOutside isDigitOrColon timeStr)) ->
      exists q, parseTime timeStr = Fin q /\ (0 <= q)%Q)
  /\ (wholeSeconds (splitOn colon (removeOutside isDigitOrColon timeStr)) < 2 ^ 53 ->
      parseTime timeStr
      = Fin (inject_Z
               (wholeSeconds (splitOn colon (removeOutside isDigitOrColon timeStr))))).
Proof.
  rewrite parseTime_unfold.
  pose proof (parts_digits timeStr) as Hdig.
  assert (Z0 : nonNegative (Fin 0)).
  { right. exists 0%Q. split; [reflexivity | apply Qle_refl]. }
  assert (F0 : exists q, Fin 0 = Fin q /\ (0 <= q)%Q).
  { exists 0%Q. split; [reflexivity | apply Qle_refl]. }
  assert (Inj : forall r, 0 <= r -> (0 <= inject_Z r)%Q).
  { intros r Hr. change 0%Q with (inject_Z 0). rewrite <- Zle_Qle. exact Hr. }
  destruct (splitOn colon (removeOutside isDigitOrColon timeStr))
    as [|a [|b [|c [|d rest]]]]; cbn [List.map wholeSeconds].
  - split; [exact Z0|]. split; [intros _; exact F0 | intros _; reflexivity].
  - split; [exact Z0|]. split; [intros _; exact F0 | intros _; reflexivity].
  - inversion Hdig as [|? ? Da Hdig']; subst. inversion Hdig' as [|? ? Db _]; subst.
    pose proof (allDigits_value a Da) as Va.
    pose proof (allDigits_value b Db) as Vb.
    split; [|split].
    + repeat first [ apply plus_nonNegative | apply times_nonNegative
                   | apply Number_nonNegative; assumption | reflexivity ].
    + intro Hlen.
      inversion Hlen as [|? ? La Hlen']; subst. inversion Hlen' as [|? ? Lb _]; subst.
      destruct (Number_le a Da La) as [ma [Ea Ba]].
      destruct (Number_le b Db Lb) as [mb [Eb Bb]].
      rewrite Ea, Eb. change (Fin 60) with (Fin (inject_Z 60)).
      destruct (times_le ma 60 998 6 Ba) as [r1 [E1 B1]];
        [vm_compute; split; discriminate | lia | lia | lia |].
      rewrite E1.
      destruct (plus_le r1 mb _ _ 1005 B1 Bb) as [r2 [E2 B2]]; [lia | lia | lia |].
      rewrite E2. eexists. split; [reflexivity | apply Inj; lia].
    + intro Hv. unfold Number. apply seconds_exact; assumption.
  - inversion Hdig as [|? ? Da Hdig']; subst. inversion Hdig' as [|? ? Db Hdig'']; subst.
    inversion Hdig'' as [|? ? Dc _]; subst.
    pose proof (allDigits_value a Da) as Va.
    pose proof (allDigits_value b Db) as Vb.
    pose proof (allDigits_value c Dc) as Vc.
    split; [|split].
    + repeat first [ apply plus_nonNegative | apply times_nonNegative
                   | apply Number_nonNegative; assumption | reflexivity ].
    + intro Hlen.
      inversion Hlen as [|? ? La Hlen']; subst. inversion Hlen' as [|? ? Lb Hlen'']; subst.
      inversion Hlen'' as [|? ? Lc _]; subst.
      destruct (Number_le a Da La) as [ma [Ea Ba]].
      destruct (Number_le b Db Lb) as [mb [Eb Bb]].
      destruct (Number_le c Dc Lc) as [mc [Ec Bc]].
      rewrite Ea, Eb, Ec.
      change (Fin 60) with (Fin (inject_Z 60)).
      change (Fin 3600) with (Fin (inject_Z 3600)).
      destruct (times_le ma 3600 998 12 Ba) as [r1 [E1 B1]];
        [vm_compute; split; discriminate | lia | lia | lia |].
      destruct (times_le mb 60 998 6 Bb) as [r2 [E2 B2]];
        [vm_compute; split; discriminate | lia | lia | lia |].
      rewrite E1, E2.
      destruct (plus_le r1 r2 _ _ 1011 B1 B2) as [r3 [E3 B3]]; [lia | lia | lia |].
      rewrite E3.
      destruct (plus_le r3 mc _ _ 1013 B3 Bc) as [r4 [E4 B4]]; [lia | lia | lia |].
      rewrite E4. eexists. split; [reflexivity | apply Inj; lia].
    + intro Hv. unfold Number.
      rewrite (double_exact (digitsValueFrom 0 a)),
              (double_exact (digitsValueFrom 0 b)),
              (double_exact (digitsValueFrom 0 c)) by lia.
      change (Fin 60) with (Fin (inject_Z 60)).
      change (Fin 3600) with (Fin (inject_Z 3600)).
      rewrite !times_Z.
      rewrite (double_exact (digitsValueFrom 0 a * 3600)),
              (double_exact (digitsValueFrom 0 b * 60)) by lia.
      rewrite plus_Z, (double_exact (_ + _)) by lia.
      rewrite plus_Z. apply double_exact. lia.
  - split; [exact Z0|]. split; [intros _; exact F0 | intros _; reflexivity].
Qed.

(** The theorem at ["01:30"]: ninety seconds. *)
Lemma parseTime_finite_shape_witness :
  (exists q, parseTime (of_string "01:30") = Fin q /\ (0 <= q)%Q)
  /\ parseTime (of_string "01:30") = Fin 90.
Proof.
  split.
  - apply (proj1 (proj2 (parseTime_finite_shape (of_string "01:30")))).
    vm_compute. repeat constructor.
  - apply (proj2 (proj2 (parseTime_finite_shape (of_string "01:30")))).
    vm_compute. reflexivity.
Defined.

(** C10 as stated fails: a part of 310 digits converts to [Infinity], and
    so does the sum; the result is not a finite number. *)
Lemma parseTime_not_always_finite :
  parseTime (of_string "1" ++ List.repeat 48%N 309 ++ of_string ":00") = PInf
  /\ isFinite (parseTime (of_string "1" ++ List.repeat 48%N 309 ++ of_string ":00"))
     = false.
Proof. split; vm_compute; reflexivity. Qed.

(** From [2^53] on the result is the rounded one: the minutes
    9007199254740993 convert to 9007199254740992 before the product. *)
Remark parseTime_rounds :
  parseTime (of_string "9007199254740993:00") = Fin 540431955284459520
  /\ wholeSeconds [of_string "9007199254740993"; of_string "00"]
     = 540431955284459580.
Proof. split; vm_compute; reflexivity. Qed.

End ParseTimeClaim.

(** ** The caption resolver *)

Section ResolverFacts.
Import JSString JSNum Render Spec.

Lemma captionAt_iff (t : Q) (c : Caption.t) :
  captionAt t c = true <-> inClosedWindow c t.
Proof.
  unfold captionAt, inClosedWindow.
  rewrite andb_true_iff, !Qle_bool_iff. reflexivity.
Qed.

Lemma captionAt_false_iff (t : Q) (c : Caption.t) :
  captionAt t c = false <-> ~ inClosedWindow c t.
Proof.
  rewrite <- captionAt_iff. destruct (captionAt t c); split; congruence.
Qed.

(** [findIndex] returns -1 when no element passes, and otherwise the
    position of the first that does. *)
Lemma findIndexFrom_spec {A : Type} (p : A -> bool) (l : list A) (i : Z) :
  (findIndexFrom p i l = -1 /\ Forall (fun x => p x = false) l)
  \/ (exists k x, findIndexFrom p i l = i + Z.of_nat k /\ nth_error l k = Some x
                  /\ p x = true
                  /\ forall j y, (j < k)%nat -> nth_error l j = Some y -> p y = false).
Proof.
  revert i. induction l as [|x r IH]; intro i.
  - left. split; [reflexivity | constructor].
  - cbn [findIndexFrom]. destruct (p x) eqn:Px.
    + right. exists 0%nat, x. repeat split; [lia | exact Px |].
      intros j y Hj. lia.
    + destruct (IH (i + 1)) as [[H1 H2] | [k [y [H1 [H2 [H3 H4]]]]]].
      * left. split; [exact H1 | constructor; assumption].
      * right. exists (S k), y. repeat split; [lia | exact H2 | exact H3 |].
        intros j z Hj Hz. destruct j as [|j]; cbn in Hz.
        -- congruence.
        -- apply (H4 j z); [lia | exact Hz].
Qed.

Lemma resolveCaption_spec (captions : list Caption.t) (t : Q) :
  match resolveCaption captions t with
  | Some c => firstCaption (fun c => inClosedWindow c t) captions c
  | None => forall c, In c captions -> ~ inClosedWindow c t
  end.
Proof.
  unfold resolveCaption, findIndex.
  destruct (findIndexFrom_spec (captionAt t) captions 0)
    as [[H1 H2] | [k [x [H1 [H2 [H3 H4]]]]]].
  - rewrite H1. cbn. intros c Hc. apply captionAt_false_iff.
    rewrite Forall_forall in H2. auto.
  - rewrite H1. replace (0 + Z.of_nat k =? -1) with false by lia.
    rewrite Z.add_0_l, Nat2Z.id, H2.
    exists k. split; [exact H2|]. split; [apply captionAt_iff; exact H3|].
    intros j c' Hj Hc'. apply captionAt_false_iff. eauto.
Qed.

(** The caption a frame draws is the resolved one. *)
Lemma overlay_resolveCaption (clip : Clip.t) (t : Q) :
  overlay true (Some clip) t
  = match resolveCaption (Clip.captions clip) t with
    | Some c => Some (mkOverlay c (captionWords c) (activeWordIndex c t))
    | None => None
    end.
Proof.
  unfold overlay, resolveCaption.
  destruct (findIndex (captionAt t) (Clip.captions clip) =? -1); [reflexivity|].
  destruct (nth_error (Clip.captions clip)
                      (Z.to_nat (findIndex (captionAt t) (Clip.captions clip))));
    reflexivity.
Qed.

Lemma firstCaption_unique (P : Caption.t -> Prop) (captions : list Caption.t)
      (c1 c2 : Caption.t) :
  firstCaption P captions c1 -> firstCaption P captions c2 -> c1 = c2.
Proof.
  intros [k1 [N1 [P1 F1]]] [k2 [N2 [P2 F2]]].
  destruct (Nat.lt_trichotomy k1 k2) as [Hlt | [Heq | Hgt]].
  - exfalso. apply (F2 k1 c1 Hlt N1 P1).
  - subst. congruence.
  - exfalso. apply (F1 k2 c2 Hgt N2 P2).
Qed.

End ResolverFacts.

Section ResolverClaim.
Import JSString JSNum Render Spec.

(** C2 (amended): for every ordered caption list and every absolute time
    [t], the resolver returns caption [c] exactly when [c] is the first
    caption in list order whose window with both ends included,
    [c.startSeconds <= t <= c.endSeconds], contains [t]; it returns none
    exactly when [t] lies outside every such window.  For the caption
    {start 12 s, end 16 s} it returns none at t = 16.1 s. *)
Theorem resolveCaption_closed_window (captions : list Caption.t) (t : Q) :
  (forall c, resolveCaption captions t = Some c
             <-> firstCaption (fun c => inClosedWindow c t) captions c)
  /\ (resolveCaption captions t = None
      <-> forall c, In c captions -> ~ inClosedWindow c t)
  /\ resolveCaption [scenarioCaption] (161 # 10) = None.
Proof.
  pose proof (resolveCaption_spec captions t) as Hs.
  split; [|split].
  - intro c. destruct (resolveCaption captions t) as [c0|].
    + split.
      * intro E. injection E as <-. exact Hs.
      * intro Hc. f_equal. eapply firstCaption_unique; eassumption.
    + split; [discriminate|].
      intros [k [Hk [Hc _]]]. exfalso. apply (Hs c); [|exact Hc].
      eapply nth_error_In. exact Hk.
  - destruct (resolveCaption captions t) as [c0|].
    + split; [discriminate|]. intro Hall. exfalso.
      destruct Hs as [k [Hk [Hc _]]]. apply (Hall c0); [|exact Hc].
      eapply nth_error_In. exact Hk.
    + split; [intros _; exact Hs | reflexivity].
  - vm_compute. reflexivity.
Qed.

(** The theorem at the scenario caption: returned at 12 s, at 15.9 s and at
    the closing instant 16 s. *)
Lemma resolveCaption_closed_window_witness :
  resolveCaption [scenarioCaption] 12 = Some scenarioCaption
  /\ resolveCaption [scenarioCaption] (159 # 10) = Some scenarioCaption
  /\ resolveCaption [scenarioCaption] 16 = Some scenarioCaption.
Proof.
  assert (W : forall t, (12 <= t)%Q -> (t <= 16)%Q ->
                        resolveCaption [scenarioCaption] t = Some scenarioCaption).
  { intros t H1 H2.
    apply (proj1 (resolveCaption_closed_window [scenarioCaption] t)).
    exists 0%nat. split; [reflexivity|]. split; [split; assumption|].
    intros j c' Hj. inversion Hj. }
  split; [|split]; apply W; vm_compute; discriminate.
Defined.

(** C2 as stated fails at a window's end.  At t = 16 s, outside the
    half-open window [12, 16) of the only caption, the resolver returns the
    caption, not none; and where one caption ends at the instant the next
    begins, the resolver returns the earlier one at that instant although
    only the later one's half-open window contains it. *)
Lemma resolveCaption_half_open_counterexample :
  (forall c, In c [scenarioCaption] -> ~ inHalfOpenWindow c 16)
  /\ resolveCaption [scenarioCaption] 16 = Some scenarioCaption
  /\ let a := Caption.mk (of_string "one") (of_string "00:10") (of_string "00:12") 10 12 in
     let b := Caption.mk (of_string "two") (of_string "00:12") (of_string "00:14") 12 14 in
     firstCaption (fun c => inHalfOpenWindow c 12) [a; b] b
     /\ resolveCaption [a; b] 12 = Some a
     /\ a <> b.
Proof.
  split; [|split; [|split; [|split]]].
  - intros c [<-|[]] [_ H]. vm_compute in H. discriminate.
  - vm_compute. reflexivity.
  - exists 1%nat. split; [reflexivity|]. split.
    + split; vm_compute; [discriminate | reflexivity].
    + intros j c' Hj Hc' [_ H].
      destruct j as [|j]; [|lia]. cbn in Hc'. injection Hc' as <-.
      vm_compute in H. discriminate.
  - vm_compute. reflexivity.
  - discriminate.
Qed.

End ResolverClaim.

(** ** The word highlight *)

Section WordFacts.
Import JSString JSNum Render Spec.

Lemma splitWsFrom_nonempty (s cur : JSString.t) (inWs : bool) :
  (1 <= List.length (splitWsFrom inWs cur s))%nat.
Proof.
  revert cur inWs. induction s as [|c r IH]; intros cur inWs; cbn [splitWsFrom].
  - cbn. lia.
  - destruct (isWhiteSpace c); [destruct inWs|]; cbn [List.length];
      try apply IH; lia.
Qed.

(** [split] never returns an empty array: there is always a last word. *)
Lemma captionWords_nonempty (c : Caption.t) :
  (1 <= List.length (captionWords c))%nat.
Proof. apply splitWsFrom_nonempty. Qed.

Lemma splitWsFrom_no_white_space (s cur : JSString.t) (inWs : bool) :
  Forall (fun ch => isWhiteSpace ch = false) cur ->
  Forall (Forall (fun ch => isWhiteSpace ch = false)) (splitWsFrom inWs cur s).
Proof.
  revert cur inWs. induction s as [|c r IH]; intros cur inWs Hcur;
    cbn [splitWsFrom].
  - constructor; [apply Forall_rev; exact Hcur | constructor].
  - destruct (isWhiteSpace c) eqn:Ec.
    + destruct inWs.
      * apply IH. exact Hcur.
      * constructor; [apply Forall_rev; exact Hcur | apply IH; constructor].
    + apply IH. constructor; assumption.
Qed.

(** The words are free of white space. *)
Lemma captionWords_no_white_space (c : Caption.t) :
  Forall (Forall (fun ch => isWhiteSpace ch = false)) (captionWords c).
Proof. apply splitWsFrom_no_white_space. constructor. Qed.

Lemma fold_padded_shift (l : list JSString.t) (b : Z) :
  fold_right (fun w a => paddedLength w + a) b l
  = fold_right (fun w a => paddedLength w + a) 0 l + b.
Proof. induction l as [|w l IH]; cbn [fold_right]; lia. Qed.

Lemma accumulatedChars_app (pre rest : list JSString.t) :
  accumulatedChars (pre ++ rest) (List.length pre)
  = fold_right (fun w a => paddedLength w + a) 0 pre.
Proof.
  unfold accumulatedChars.
  rewrite firstn_app, Nat.sub_diag, firstn_all, firstn_O, app_nil_r. reflexivity.
Qed.

Lemma accumulatedChars_next (pre rest : list JSString.t) (w : JSString.t) :
  accumulatedChars (pre ++ w :: rest) (List.length (pre ++ [w]))
  = accumulatedChars (pre ++ w :: rest) (List.length pre) + paddedLength w.
Proof.
  rewrite accumulatedChars_app.
  replace (pre ++ w :: rest) with ((pre ++ [w]) ++ rest)
    by (rewrite <- app_assoc; reflexivity).
  rewrite accumulatedChars_app, fold_right_app. cbn [fold_right].
  rewrite fold_padded_shift. lia.
Qed.

(** The loop's result is -1 or the index of one of the words it walks. *)
Lemma wordLoop_range (cd tp : Q) (rest : list JSString.t) (i acc : Z) :
  wordLoop cd tp rest i acc = -1
  \/ i <= wordLoop cd tp rest i acc < i + Z.of_nat (List.length rest).
Proof.
  revert i acc. induction rest as [|w rest IH]; intros i acc; cbn [wordLoop].
  - left. reflexivity.
  - match goal with |- context [if ?b then _ else _] => destruct b end.
    + right. cbn [List.length]. lia.
    + destruct (IH (i + 1) (acc + (JSString.length w + 1))) as [H|H].
      * left. exact H.
      * right. cbn [List.length]. lia.
Qed.

(** Once the elapsed time has reached the start of the window the loop is
    at, a later time never selects an earlier word. *)
Lemma wordLoop_mono (cd tp1 tp2 : Q) (rest : list JSString.t) (i acc : Z) :
  (inject_Z acc * cd <= tp1)%Q -> (tp1 <= tp2)%Q ->
  0 <= i ->
  0 <= wordLoop cd tp2 rest i acc ->
  0 <= wordLoop cd tp1 rest i acc <= wordLoop cd tp2 rest i acc.
Proof.
  revert i acc. induction rest as [|w rest IH]; intros i acc Hlo H12 Hi H2;
    cbn [wordLoop] in *.
  - lia.
  - destruct (Qle_bool (inject_Z acc * cd) tp2
              && Qltb tp2 (inject_Z (acc + (JSString.length w + 1)) * cd)) eqn:E2.
    + apply andb_true_iff in E2. destruct E2 as [_ E2]. apply Qltb_iff in E2.
      assert (E1 : Qle_bool (inject_Z acc * cd) tp1
                   && Qltb tp1 (inject_Z (acc + (JSString.length w + 1)) * cd) = true).
      { apply andb_true_iff. split.
        - apply Qle_bool_iff. exact Hlo.
        - apply Qltb_iff. eapply Qle_lt_trans; eassumption. }
      rewrite E1. lia.
    + pose proof (wordLoop_range cd tp2 rest (i + 1)
                    (acc + (JSString.length w + 1))) as R2.
      destruct (Qle_bool (inject_Z acc * cd) tp1
              && Qltb tp1 (inject_Z (acc + (JSString.length w + 1)) * cd)) eqn:E1.
      * lia.
      * apply andb_false_iff in E1. destruct E1 as [E1|E1].
        -- apply Qle_bool_false in E1. exfalso.
           apply (Qlt_not_le _ _ E1 Hlo).
        -- apply Qltb_false in E1. apply IH; try assumption; lia.
Qed.

End WordFacts.

(** ** The words of a caption *)

Section WordsOfText.
Import JSString JSNum Render Spec.

Lemma trimStart_tail (s : JSString.t) : exists a, s = a ++ trimStart s.
Proof.
  induction s as [|c s [a IH]]; [exists []; reflexivity|].
  cbn [trimStart]. destruct (isWhiteSpace c).
  - exists (c :: a). cbn. rewrite <- IH. reflexivity.
  - exists []. reflexivity.
Qed.

(** [trim] returns a run of consecutive code units of its argument. *)
Lemma trim_piece (s : JSString.t) : exists a b, s = a ++ trim s ++ b.
Proof.
  unfold trim, trimEnd.
  destruct (trimStart_tail s) as [a Ha].
  destruct (trimStart_tail (rev (trimStart s))) as [b Hb].
  exists a, (rev b). rewrite <- rev_app_distr, <- Hb, rev_involutive. exact Ha.
Qed.

Lemma trimStart_head (s : JSString.t) :
  match trimStart s with
  | [] => True
  | c :: _ => isWhiteSpace c = false
  end.
Proof.
  induction s as [|c s IH]; [exact I|].
  cbn [trimStart]. destruct (isWhiteSpace c) eqn:E; [exact IH | exact E].
Qed.

Lemma trimStart_snoc (l : JSString.t) (c : code_unit) :
  isWhiteSpace c = false -> trimStart (l ++ [c]) = trimStart l ++ [c].
Proof.
  intro Hc. induction l as [|a l IH]; cbn [app trimStart].
  - rewrite Hc. reflexivity.
  - destruct (isWhiteSpace a); [exact IH | reflexivity].
Qed.

(** A trimmed text is empty or starts and ends with a code unit that is
    not white space. *)
Lemma trim_ends (s : JSString.t) :
  trim s = []
  \/ exists c r pre y, trim s = c :: r /\ trim s = pre ++ [y]
                       /\ isWhiteSpace c = false /\ isWhiteSpace y = false.
Proof.
  unfold trim, trimEnd.
  pose proof (trimStart_head s) as Hh.
  destruct (trimStart s) as [|c x]; [left; reflexivity|]. right.
  cbn [rev]. rewrite (trimStart_snoc (rev x) c Hh), rev_unit.
  pose proof (trimStart_head (rev x ++ [c])) as Hl.
  rewrite (trimStart_snoc (rev x) c Hh) in Hl.
  destruct (trimStart (rev x)) as [|y z] eqn:E.
  - exists c, [], [], c. cbn. auto.
  - cbn [app] in Hl. exists c, (rev (y :: z)), (c :: rev z), y.
    split; [reflexivity|]. split; [|auto].
    cbn [rev]. rewrite app_comm_cons. reflexivity.
Qed.

Lemma pieces_nonempty (s : JSString.t) : pieces s <> [].
Proof.
  destruct s as [|c r]; cbn; [discriminate|].
  destruct (isWhiteSpace c); [discriminate|]. destruct (pieces r); discriminate.
Qed.

(** The pieces that [split] leaves between runs of white space are, the
    empty ones apart, the pieces between single white-space code units. *)
Lemma splitWsFrom_pieces (s : JSString.t) (inWs : bool) (cur : JSString.t) :
  (inWs = true -> cur = []) ->
  List.filter nonEmpty (splitWsFrom inWs cur s)
  = List.filter nonEmpty
      (match pieces s with
       | p :: ps => (rev cur ++ p) :: ps
       | [] => [rev cur]
       end).
Proof.
  revert inWs cur. induction s as [|c r IH]; intros inWs cur H.
  - cbn [splitWsFrom pieces]. rewrite app_nil_r. reflexivity.
  - cbn [splitWsFrom pieces]. destruct (isWhiteSpace c) eqn:W.
    + rewrite app_nil_r.
      assert (E : List.filter nonEmpty (splitWsFrom true [] r)
                  = List.filter nonEmpty (pieces r)).
      { rewrite (IH true [] ltac:(reflexivity)).
        pose proof (pieces_nonempty r) as Hne.
        destruct (pieces r) as [|p ps]; [contradiction | reflexivity]. }
      destruct inWs.
      * rewrite (H eq_refl). cbn [rev List.filter nonEmpty]. exact E.
      * cbn [List.filter]. rewrite E. reflexivity.
    + rewrite (IH false (c :: cur) ltac:(discriminate)).
      destruct (pieces r) as [|p ps]; cbn [rev].
      * reflexivity.
      * rewrite <- app_assoc. reflexivity.
Qed.

Lemma pieces_white_space (w : JSString.t) :
  Forall (fun c => isWhiteSpace c = true) w ->
  pieces w = [[]] ++ List.repeat [] (List.length w).
Proof.
  induction 1 as [|c w Hc Hw IH]; [reflexivity|].
  cbn [pieces List.length List.repeat]. rewrite Hc, IH. reflexivity.
Qed.

(** Trailing white space adds empty pieces only. *)
Lemma pieces_trailing (x w : JSString.t) :
  Forall (fun c => isWhiteSpace c = true) w ->
  pieces (x ++ w) = pieces x ++ List.repeat [] (List.length w).
Proof.
  intro Hw. induction x as [|c x IH]; cbn [app].
  - apply pieces_white_space. exact Hw.
  - cbn [pieces]. rewrite IH. destruct (isWhiteSpace c); [reflexivity|].
    pose proof (pieces_nonempty x) as Hne.
    destruct (pieces x) as [|p ps]; [contradiction | reflexivity].
Qed.

Lemma filter_nonEmpty_repeat (l : list JSString.t) (n : nat) :
  List.filter nonEmpty (l ++ List.repeat [] n) = List.filter nonEmpty l.
Proof.
  rewrite filter_app.
  induction n as [|n IH]; cbn [List.repeat List.filter nonEmpty];
    [apply app_nil_r | exact IH].
Qed.

Lemma trimStart_white_space (s : JSString.t) :
  exists w, s = w ++ trimStart s /\ Forall (fun c => isWhiteSpace c = true) w.
Proof.
  induction s as [|c s [w [E F]]]; [exists []; split; [reflexivity | constructor]|].
  cbn [trimStart]. destruct (isWhiteSpace c) eqn:W.
  - exists (c :: w). split; [cbn; rewrite <- E; reflexivity | constructor; assumption].
  - exists []. split; [reflexivity | constructor].
Qed.

Lemma pieces_trimStart (s : JSString.t) :
  List.filter nonEmpty (pieces (trimStart s)) = List.filter nonEmpty (pieces s).
Proof.
  induction s as [|c s IH]; [reflexivity|].
  cbn [trimStart]. destruct (isWhiteSpace c) eqn:W.
  - cbn [pieces]. rewrite W. cbn [List.filter nonEmpty]. exact IH.
  - reflexivity.
Qed.

Lemma pieces_trimEnd (s : JSString.t) :
  List.filter nonEmpty (pieces (trimEnd s)) = List.filter nonEmpty (pieces s).
Proof.
  destruct (trimStart_white_space (rev s)) as [w [E F]].
  assert (E' : s = trimEnd s ++ rev w).
  { unfold trimEnd. rewrite <- rev_app_distr, <- E, rev_involutive. reflexivity. }
  transitivity (List.filter nonEmpty (pieces (trimEnd s ++ rev w))).
  - rewrite pieces_trailing by (apply Forall_rev; exact F).
    rewrite filter_nonEmpty_repeat. reflexivity.
  - rewrite <- E'. reflexivity.
Qed.

Lemma nonEmpty_rev (cur : JSString.t) : cur <> [] -> nonEmpty (rev cur) = true.
Proof.
  destruct cur as [|a l]; [contradiction|]. intros _. cbn [rev].
  destruct (rev l); reflexivity.
Qed.

(** On a text that does not end in white space, and that starts with a word
    when nothing is being read, [split] leaves no empty piece. *)
Lemma splitWsFrom_words (s : JSString.t) (inWs : bool) (cur : JSString.t) :
  (s = [] \/ exists pre y, s = pre ++ [y] /\ isWhiteSpace y = false) ->
  (s = [] -> cur <> []) ->
  (inWs = false -> cur = [] -> exists c r, s = c :: r /\ isWhiteSpace c = false) ->
  Forall (fun w => nonEmpty w = true) (splitWsFrom inWs cur s).
Proof.
  revert inWs cur. induction s as [|c r IH]; intros inWs cur H1 H2 H3;
    cbn [splitWsFrom].
  - constructor; [|constructor]. apply nonEmpty_rev, H2. reflexivity.
  - destruct H1 as [H1|[pre [y [E Wy]]]]; [discriminate|].
    assert (Hr : (r = [] /\ c = y) \/ exists pre', r = pre' ++ [y]).
    { destruct pre as [|p pre']; cbn [app] in E; injection E as E1 E2.
      - left. split; [exact E2 | exact E1].
      - right. exists pre'. exact E2. }
    destruct (isWhiteSpace c) eqn:W.
    + destruct Hr as [[_ Ec]|[pre' Er]]; [congruence|].
      assert (Hne : r <> []) by (rewrite Er; destruct pre'; discriminate).
      assert (Hrest : Forall (fun w => nonEmpty w = true) (splitWsFrom true [] r)).
      { apply IH; [right; exists pre', y; split; assumption
                  | intro; contradiction | discriminate]. }
      destruct inWs.
      * apply IH; [right; exists pre', y; split; assumption
                  | intro; contradiction | discriminate].
      * constructor; [|exact Hrest].
        apply nonEmpty_rev. intro Hc.
        destruct (H3 eq_refl Hc) as [c0 [r0 [E0 W0]]].
        injection E0 as <- _. congruence.
    + apply IH.
      * destruct Hr as [[Er _]|[pre' Er]];
          [left; exact Er | right; exists pre', y; split; assumption].
      * intros _. discriminate.
      * intros _ Hc. discriminate.
Qed.

Lemma filter_all {A : Type} (f : A -> bool) (l : list A) :
  Forall (fun x => f x = true) l -> List.filter f l = l.
Proof.
  induction 1 as [|x l Hx Hl IH]; [reflexivity|]. cbn. rewrite Hx, IH. reflexivity.
Qed.

(** The words the code draws are the words of the text: for every text,
    [text.trim().split(/\s+/)] is the list of the maximal runs of code units
    that are not white space, or the one empty word. *)
Lemma trim_split_words (text : JSString.t) :
  splitWs (trim text) = specWords text.
Proof.
  unfold specWords.
  assert (E0 : List.filter nonEmpty (pieces text)
               = List.filter nonEmpty (splitWs (trim text))).
  { rewrite <- (pieces_trimStart text), <- (pieces_trimEnd (trimStart text)).
    change (trimEnd (trimStart text)) with (trim text).
    pose proof (splitWsFrom_pieces (trim text) false [] ltac:(discriminate)) as HP.
    pose proof (pieces_nonempty (trim text)) as Hne.
    destruct (pieces (trim text)) as [|p ps]; [contradiction|].
    symmetry. exact HP. }
  rewrite E0.
  destruct (trim_ends text) as [E|[c [r [pre [y [E1 [E2 [Wc Wy]]]]]]]].
  - rewrite E. reflexivity.
  - assert (F : Forall (fun w => nonEmpty w = true) (splitWs (trim text))).
    { unfold splitWs. apply splitWsFrom_words.
      - right. exists pre, y. split; assumption.
      - rewrite E1. discriminate.
      - intros _ _. exists c, r. split; assumption. }
    rewrite (filter_all _ _ F).
    pose proof (splitWsFrom_nonempty (trim text) [] false) as L.
    fold (splitWs (trim text)) in L.
    destruct (splitWs (trim text)); [cbn in L; lia | reflexivity].
Qed.

End WordsOfText.

Section WordClaims.
Import JSString JSNum Render Spec.

Lemma activeWordIndex_unfold (c : Caption.t) (t : Q) :
  activeWordIndex c t =
  let i := wordLoop (perCharDuration c) (elapsedT c t) (captionWords c) 0 0 in
  if (i =? -1) && Qle_bool (captionD c * (9 # 10)) (elapsedT c t)
  then Z.of_nat (List.length (captionWords c)) - 1
  else i.
Proof. reflexivity. Qed.

Lemma specWords_nonempty (text : JSString.t) :
  (1 <= List.length (specWords text))%nat.
Proof.
  unfold specWords. destruct (List.filter nonEmpty (pieces text)); cbn; lia.
Qed.

(** Over any arithmetic the loop, started at word [length pre] with the
    characters of [pre] accumulated, finds the first remaining word whose
    window contains the elapsed time. *)
Lemma wordLoop_rule {num : Type} (A : Arith.t num) (pcd T : num)
      (ws rest pre : list JSString.t) :
  ws = pre ++ rest ->
  Highlight.wordLoop A pcd T rest (Z.of_nat (List.length pre))
                     (accumulatedChars ws (List.length pre))
  = indexOf (find (ruleWindow A ws pcd T) (seq (List.length pre) (List.length rest))).
Proof.
  revert pre. induction rest as [|w rest IH]; intros pre Hw.
  - reflexivity.
  - cbn [Highlight.wordLoop List.length seq find].
    assert (Hwin : ruleWindow A ws pcd T (List.length pre)
                   = Arith.le A (Arith.mul A (Arith.ofInt A
                                   (accumulatedChars ws (List.length pre))) pcd) T
                     && Arith.lt A T
                          (Arith.mul A (Arith.ofInt A
                             (accumulatedChars ws (List.length pre)
                              + (JSString.length w + 1))) pcd)).
    { unfold ruleWindow. rewrite Hw at 1.
      rewrite nth_error_app2, Nat.sub_diag by lia. cbn [nth_error].
      rewrite Z.add_assoc. reflexivity. }
    rewrite Hwin.
    match goal with |- context [if ?b then _ else _] => destruct b end.
    + reflexivity.
    + specialize (IH (pre ++ [w])).
      rewrite <- app_assoc in IH. specialize (IH Hw).
      rewrite Hw in IH at 1. rewrite accumulatedChars_next in IH.
      rewrite <- Hw in IH. unfold paddedLength in IH.
      rewrite length_app in IH. cbn [List.length] in IH.
      replace (List.length pre + 1)%nat with (S (List.length pre)) in IH by lia.
      rewrite Nat2Z.inj_succ in IH. unfold Z.succ in IH.
      exact IH.
Qed.

(** Over any arithmetic the index that [render] computes is the one of the
    rule. *)
Lemma highlight_rule {num : Type} (A : Arith.t num) (text : JSString.t)
      (startSeconds endSeconds vidTime : num) :
  Highlight.activeWordIndex A text startSeconds endSeconds vidTime
  = indexOf (ruleActiveWord A text startSeconds endSeconds vidTime).
Proof.
  unfold Highlight.activeWordIndex, ruleActiveWord. cbv zeta.
  rewrite trim_split_words.
  pose proof (specWords_nonempty text) as Hne.
  match goal with
  | |- context [Highlight.wordLoop A ?pcd ?T (specWords text) 0 0] =>
      pose proof (wordLoop_rule A pcd T (specWords text) (specWords text) []
                                eq_refl) as Hloop
  end.
  cbn [List.length Z.of_nat] in Hloop.
  change (accumulatedChars (specWords text) 0) with 0 in Hloop.
  rewrite Hloop.
  match goal with
  | |- context [find ?f ?l] => destruct (find f l) as [i|]
  end; cbn [indexOf].
  - rewrite (proj2 (Z.eqb_neq (Z.of_nat i) (-1))) by lia. reflexivity.
  - rewrite Z.eqb_refl. cbn [andb].
    match goal with
    | |- context [if ?b then _ else _] => destruct b
    end; cbn [indexOf]; lia.
Qed.

(** The loop of [Render] is the loop over the exact rationals. *)
Lemma wordLoop_exact (cd tp : Q) (ws : list JSString.t) (i acc : Z) :
  wordLoop cd tp ws i acc = Highlight.wordLoop Arith.exact cd tp ws i acc.
Proof.
  revert i acc. induction ws as [|w ws IH]; intros i acc; [reflexivity|].
  cbn [wordLoop Highlight.wordLoop]. rewrite IH. reflexivity.
Qed.

Lemma activeWordIndex_exact (c : Caption.t) (t : Q) :
  activeWordIndex c t
  = Highlight.activeWordIndex Arith.exact (Caption.text c)
      (Caption.startSeconds c) (Caption.endSeconds c) t.
Proof.
  unfold activeWordIndex, Highlight.activeWordIndex, captionWords. cbv zeta.
  rewrite wordLoop_exact. reflexivity.
Qed.

(** C1: for every caption, the words that [render] walks are the words of
    the caption text, that is the maximal runs of code units that are not
    white space (what splitting the trimmed text on white space leaves); and
    for every time, the index that [render] computes is the one the rule of
    the specification gives over these words: the first word, walking in
    order and accumulating each word's length plus one trailing space, whose
    window [[acc * perCharDuration, (acc + wordLength + 1) * perCharDuration)]
    contains T = t - startSeconds; failing that, the last word when
    T >= 0.9 * D; and the highlighted word is the word at that index.  The
    same holds over any arithmetic, binary64 included, when the rule is
    evaluated with the operations of [render].  For the clip {10 s, 40 s}
    with the caption "this is a test" {12 s, 16 s} the frame at 12.0 s shows
    that caption with "this" active, the frame at 15.9 s shows it with
    "test" active, in exact arithmetic and in binary64. *)
Theorem activeWordIndex_refines_spec (c : Caption.t) (t : Q) :
  captionWords c = specWords (Caption.text c)
  /\ activeWordIndex c t
     = indexOf (ruleActiveWord Arith.exact (Caption.text c)
                  (Caption.startSeconds c) (Caption.endSeconds c) t)
  /\ activeWord c t
     = match ruleActiveWord Arith.exact (Caption.text c)
               (Caption.startSeconds c) (Caption.endSeconds c) t with
       | Some i => nth_error (specWords (Caption.text c)) i
       | None => None
       end
  /\ (forall (num : Type) (A : Arith.t num) (startSeconds endSeconds vidTime : num),
        Highlight.activeWordIndex A (Caption.text c) startSeconds endSeconds vidTime
        = indexOf (ruleActiveWord A (Caption.text c)
                     startSeconds endSeconds vidTime))
  /\ overlay true (Some scenarioClip) 12
     = Some (mkOverlay scenarioCaption
               [of_string "this"; of_string "is"; of_string "a"; of_string "test"] 0)
  /\ activeWord scenarioCaption 12 = Some (of_string "this")
  /\ overlay true (Some scenarioClip) (159 # 10)
     = Some (mkOverlay scenarioCaption
               [of_string "this"; of_string "is"; of_string "a"; of_string "test"] 3)
  /\ activeWord scenarioCaption (159 # 10) = Some (of_string "test")
  /\ Highlight.activeWordIndex Arith.binary64 (of_string "this is a test")
       (tenths 120) (tenths 160) (tenths 120) = 0
  /\ Highlight.activeWordIndex Arith.binary64 (of_string "this is a test")
       (tenths 120) (tenths 160) (tenths 159) = 3.
Proof.
  assert (Hw : captionWords c = specWords (Caption.text c))
    by apply trim_split_words.
  assert (Hidx : activeWordIndex c t
                 = indexOf (ruleActiveWord Arith.exact (Caption.text c)
                              (Caption.startSeconds c) (Caption.endSeconds c) t)).
  { rewrite activeWordIndex_exact. apply highlight_rule. }
  split; [exact Hw|]. split; [exact Hidx|]. split; [|split].
  - unfold activeWord. rewrite Hidx, Hw.
    destruct (ruleActiveWord Arith.exact (Caption.text c)
                (Caption.startSeconds c) (Caption.endSeconds c) t) as [i|];
      cbn [indexOf].
    + rewrite (proj2 (Z.ltb_ge (Z.of_nat i) 0)) by lia. rewrite Nat2Z.id. reflexivity.
    + reflexivity.
  - intros num A s e v. apply highlight_rule.
  - repeat split; vm_compute; reflexivity.
Qed.

(** The theorem read at the scenario caption, at 13.5 s: the word "is". *)
Lemma activeWordIndex_refines_spec_witness :
  ruleActiveWord Arith.exact (of_string "this is a test") 12%Q 16%Q (135 # 10)
  = Some 1%nat
  /\ activeWordIndex scenarioCaption (135 # 10) = 1.
Proof.
  split; [vm_compute; reflexivity|].
  rewrite (proj1 (proj2 (activeWordIndex_refines_spec scenarioCaption (135 # 10)))).
  vm_compute. reflexivity.
Defined.

(** C8: within a single caption the active word never moves backwards: for
    all t1 <= t2 in the caption's window, whenever a word is highlighted at
    t2 (by the walk or by the 0.9 D fallback), the index stored at t1 is not
    larger, so the word highlighted at t1, if any, is never a later word than
    the one highlighted at t2. *)
Theorem activeWordIndex_monotone (c : Caption.t) (t1 t2 : Q) :
  captionAt t1 c = true -> captionAt t2 c = true -> (t1 <= t2)%Q ->
  0 <= activeWordIndex c t2 ->
  activeWordIndex c t1 <= activeWordIndex c t2.
Proof.
  intros A1 A2 H12 Hsel.
  apply captionAt_iff in A1. destruct A1 as [S1 _].
  rewrite !activeWordIndex_unfold in *. cbv zeta in *.
  set (cd := perCharDuration c) in *.
  set (ws := captionWords c) in *.
  pose proof (captionWords_nonempty c) as Hne. fold ws in Hne.
  assert (T12 : (elapsedT c t1 <= elapsedT c t2)%Q).
  { unfold elapsedT. lra. }
  assert (T0 : (inject_Z 0 * cd <= elapsedT c t1)%Q).
  { unfold elapsedT. change (inject_Z 0) with 0%Q. lra. }
  pose proof (wordLoop_range cd (elapsedT c t1) ws 0 0) as R1.
  pose proof (wordLoop_range cd (elapsedT c t2) ws 0 0) as R2.
  destruct (Z.eqb_spec (wordLoop cd (elapsedT c t2) ws 0 0) (-1)) as [E2|E2].
  - cbn [andb] in *.
    destruct (Qle_bool (captionD c * (9 # 10)) (elapsedT c t2)); [|lia].
    destruct ((wordLoop cd (elapsedT c t1) ws 0 0 =? -1)
              && Qle_bool (captionD c * (9 # 10)) (elapsedT c t1)); lia.
  - cbn [andb] in *.
    pose proof (wordLoop_mono cd _ _ ws 0 0 T0 T12 ltac:(lia) ltac:(lia)) as M.
    rewrite (proj2 (Z.eqb_neq (wordLoop cd (elapsedT c t1) ws 0 0) (-1))) by lia.
    cbn [andb]. lia.
Qed.

(** The theorem between 13.5 s ("is") and 15.9 s ("test") of the scenario
    caption. *)
Lemma activeWordIndex_monotone_witness :
  activeWordIndex scenarioCaption (135 # 10)
  <= activeWordIndex scenarioCaption (159 # 10).
Proof.
  apply activeWordIndex_monotone; vm_compute; try reflexivity; discriminate.
Defined.

End WordClaims.

(** ** The playback tick: progress *)

Section ProgressFacts.
Import JSString JSNum Player Spec.

Lemma overflow_bound_above_100 : (100 < inject_Z overflow_bound)%Q.
Proof. change 100%Q with (inject_Z 100). rewrite <- Zlt_Qlt. vm_compute. reflexivity. Qed.

Lemma norm_fin_small (q : Q) : (0 <= q)%Q -> (q <= 100)%Q -> norm q = Fin q.
Proof.
  intros H0 H100. pose proof overflow_bound_above_100 as HB. unfold norm.
  assert (E1 : Qle_bool (inject_Z overflow_bound) q = false).
  { apply Qle_bool_false. lra. }
  assert (E2 : Qle_bool q (inject_Z (- overflow_bound)) = false).
  { apply Qle_bool_false. rewrite inject_Z_opp. lra. }
  rewrite E1, E2. reflexivity.
Qed.

(** A positive exact result is returned as it is or overflows to
    [Infinity]. *)
Lemma norm_pos (q : Q) : (0 < q)%Q -> norm q = Fin q \/ norm q = PInf.
Proof.
  intro H0. pose proof overflow_bound_above_100 as HB. unfold norm.
  destruct (Qle_bool (inject_Z overflow_bound) q); [right; reflexivity|].
  assert (E2 : Qle_bool q (inject_Z (- overflow_bound)) = false).
  { apply Qle_bool_false. rewrite inject_Z_opp. lra. }
  rewrite E2. left. reflexivity.
Qed.

Lemma sign_pos (q : Q) : (0 < q)%Q -> sign q = 1.
Proof.
  intro H. unfold sign. rewrite (proj2 (Qltb_iff 0 q) H). reflexivity.
Qed.

Lemma sign_zero (q : Q) : (q == 0)%Q -> sign q = 0.
Proof.
  intro H. unfold sign.
  rewrite (proj2 (Qltb_false 0 q)) by lra.
  rewrite (proj2 (Qltb_false q 0)) by lra. reflexivity.
Qed.

Lemma Qeq_bool_false_pos (d : Q) : (0 < d)%Q -> Qeq_bool d 0 = false.
Proof.
  intro H. destruct (Qeq_bool d 0) eqn:E; [|reflexivity].
  apply Qeq_bool_iff in E. lra.
Qed.

(** Inside the clip the percentage is the exact quotient, between 0 and
    100. *)
Lemma percent_inside (a d : Q) :
  (0 < d)%Q -> (0 <= a)%Q -> (a <= d)%Q ->
  percent a d = Fin (a / d * 100) /\ (0 <= a / d * 100)%Q /\ (a / d * 100 <= 100)%Q.
Proof.
  intros Hd Ha Had.
  assert (Hk : (0 < / d)%Q) by (apply Qinv_lt_0_compat; exact Hd).
  assert (Hdk : (d * / d == 1)%Q) by (apply Qmult_inv_r; lra).
  assert (R1 : (0 <= a / d)%Q /\ (a / d <= 100)%Q).
  { unfold Qdiv. split; nra. }
  assert (R2 : (0 <= a / d * 100)%Q /\ (a / d * 100 <= 100)%Q).
  { unfold Qdiv. split; nra. }
  unfold percent. cbn [div]. rewrite (Qeq_bool_false_pos d Hd).
  rewrite (norm_fin_small (a / d)) by tauto.
  cbn [mul]. rewrite (norm_fin_small (a / d * 100)) by tauto.
  tauto.
Qed.

(** Past the end of the clip the percentage is above 100. *)
Lemma percent_beyond (a d : Q) :
  (0 < d)%Q -> (d < a)%Q ->
  percent a d = PInf \/ (percent a d = Fin (a / d * 100) /\ (100 < a / d * 100)%Q).
Proof.
  intros Hd Had.
  assert (Hk : (0 < / d)%Q) by (apply Qinv_lt_0_compat; exact Hd).
  assert (Hdk : (d * / d == 1)%Q) by (apply Qmult_inv_r; lra).
  assert (R1 : (1 < a / d)%Q) by (unfold Qdiv; nra).
  assert (R2 : (100 < a / d * 100)%Q) by lra.
  unfold percent. cbn [div]. rewrite (Qeq_bool_false_pos d Hd).
  destruct (norm_pos (a / d) ltac:(lra)) as [E|E]; rewrite E; cbn [mul].
  - destruct (norm_pos (a / d * 100) ltac:(lra)) as [E'|E']; rewrite E'.
    + right. split; [reflexivity | exact R2].
    + left. reflexivity.
  - left. rewrite sign_pos by lra. reflexivity.
Qed.

(** With a zero duration the quotient is not a finite number. *)
Lemma percent_zero_duration (a d : Q) :
  (d == 0)%Q -> (0 <= a)%Q ->
  percent a d = (if Qltb 0 a then PInf else NaN).
Proof.
  intros Hd Ha. unfold percent. cbn [div].
  rewrite (proj2 (Qeq_bool_iff d 0) Hd).
  destruct (Qltb 0 a) eqn:E.
  - apply Qltb_iff in E. rewrite (sign_pos a E). cbn [mul].
    rewrite sign_pos by lra. reflexivity.
  - apply Qltb_false in E. rewrite (sign_zero a) by lra. reflexivity.
Qed.

(** What a tick stores as progress. *)
Lemma tick_progress (s : State) (clip : Clip.t) (t : Q) :
  activeClip s = Some clip ->
  progress (fst (step s (TimeUpdate t)))
  = percent (Qmax 0 (t - Clip.startSeconds clip))
            (Clip.endSeconds clip - Clip.startSeconds clip).
Proof.
  intro Hc. destruct s. cbn in Hc. subst.
  cbn [step]. unfold handleTimeUpdate, video_seek, set_video. cbn.
  destruct (Qle_bool (Clip.endSeconds clip) t).
  - destruct isExporting0.
    + unfold finishExport. cbn.
      destruct mediaRecorder0 as [r|]; [destruct (isInactive (state r))|];
        reflexivity.
    + reflexivity.
  - destruct isExporting0; reflexivity.
Qed.

End ProgressFacts.

Section ProgressClaims.
Import JSString JSNum Render Player Spec.

(** C4 (amended): for every clip with endSeconds > startSeconds and every
    absolute time t, the progress a tick stores is
    max(0, t - startSeconds) / (endSeconds - startSeconds) * 100, clamped
    below at 0 only: it is 0 for t <= startSeconds, 100 at t = endSeconds,
    strictly increasing between the two, inside [0, 100] whenever
    t <= endSeconds, and above 100 when t > endSeconds. *)
Theorem tick_progress_percent (s : State) (clip : Clip.t) (t : Q) :
  activeClip s = Some clip ->
  (Clip.startSeconds clip < Clip.endSeconds clip)%Q ->
  ((t <= Clip.endSeconds clip)%Q ->
     progress (fst (step s (TimeUpdate t))) = Fin (progressPercent clip t)
     /\ (0 <= progressPercent clip t)%Q /\ (progressPercent clip t <= 100)%Q)
  /\ ((t <= Clip.startSeconds clip)%Q -> (progressPercent clip t == 0)%Q)
  /\ ((t == Clip.endSeconds clip)%Q -> (progressPercent clip t == 100)%Q)
  /\ (forall t', (Clip.startSeconds clip <= t)%Q -> (t < t')%Q ->
                 (progressPercent clip t < progressPercent clip t')%Q)
  /\ ((Clip.endSeconds clip < t)%Q ->
        progress (fst (step s (TimeUpdate t))) = PInf
        \/ (progress (fst (step s (TimeUpdate t))) = Fin (progressPercent clip t)
            /\ (100 < progressPercent clip t)%Q)).
Proof.
  intros Hc Hd. rewrite (tick_progress s clip t Hc).
  unfold progressPercent, clipDuration.
  set (st := Clip.startSeconds clip) in *. set (en := Clip.endSeconds clip) in *.
  assert (Hk : (0 < / (en - st))%Q) by (apply Qinv_lt_0_compat; lra).
  assert (Hdk : ((en - st) * / (en - st) == 1)%Q) by (apply Qmult_inv_r; lra).
  destruct (Q.max_spec 0 (t - st)) as [[M1 M2]|[M1 M2]].
  - (* start < t *)
    split; [|split; [|split; [|split]]].
    + intro Hle. apply percent_inside; lra.
    + intro Hle. lra.
    + intro He. rewrite M2. unfold Qdiv. nra.
    + intros t' H1 H2.
      destruct (Q.max_spec 0 (t' - st)) as [[M1' M2']|[M1' M2']]; [|lra].
      rewrite M2, M2'. unfold Qdiv. nra.
    + intro Hlt. apply percent_beyond; lra.
  - (* t <= start *)
    split; [|split; [|split; [|split]]].
    + intro Hle. apply percent_inside; lra.
    + intro Hle. rewrite M2. unfold Qdiv. nra.
    + intro He. lra.
    + intros t' H1 H2.
      destruct (Q.max_spec 0 (t' - st)) as [[M1' M2']|[M1' M2']]; [|lra].
      rewrite M2, M2'. unfold Qdiv. nra.
    + intro Hlt. lra.
Qed.

(** The theorem at the scenario clip, half way through: 50 percent. *)
Lemma tick_progress_percent_witness :
  progress (fst (step (stoppedAt scenarioClip) (TimeUpdate 25)))
  = Fin (progressPercent scenarioClip 25)
  /\ (progressPercent scenarioClip 25 == 50)%Q.
Proof.
  split.
  - apply (tick_progress_percent (stoppedAt scenarioClip) scenarioClip 25).
    + reflexivity.
    + vm_compute. reflexivity.
    + vm_compute. discriminate.
  - vm_compute. reflexivity.
Defined.

(** C4 as stated fails above the clip: the tick at 40.2 s of the clip
    {10 s, 40 s} stores a progress above 100 percent. *)
Lemma tick_progress_not_clamped_above :
  exists q, progress (fst (step (stoppedAt scenarioClip) (TimeUpdate (402 # 10))))
            = Fin q
            /\ (100 < q)%Q.
Proof.
  eexists. split; [vm_compute; reflexivity|]. vm_compute. reflexivity.
Qed.

(** C6 (amended): timing inconsistencies raise no error.  A caption whose
    window lies outside the clip bounds is never the active caption at a
    time inside the clip bounds.  On a zero-length clip the tick completes;
    the progress it stores is NaN for t <= startSeconds and Infinity for
    t > startSeconds. *)
Theorem timing_inconsistency_tolerated (s : State) (clip : Clip.t) (t : Q)
        (c : Caption.t) :
  (((Caption.endSeconds c < Clip.startSeconds clip)%Q
    \/ (Clip.endSeconds clip < Caption.startSeconds c)%Q) ->
   (Clip.startSeconds clip <= t)%Q -> (t <= Clip.endSeconds clip)%Q ->
   resolveCaption (Clip.captions clip) t <> Some c)
  /\ (activeClip s = Some clip ->
      (Clip.endSeconds clip == Clip.startSeconds clip)%Q ->
      progress (fst (step s (TimeUpdate t)))
      = (if Qltb (Clip.startSeconds clip) t then PInf else NaN)).
Proof.
  split.
  - intros Hout H1 H2 E.
    pose proof (resolveCaption_spec (Clip.captions clip) t) as Hs.
    rewrite E in Hs. destruct Hs as [k [_ [[W1 W2] _]]].
    destruct Hout; lra.
  - intros Hc Hz. rewrite (tick_progress s clip t Hc).
    rewrite percent_zero_duration; [| lra | apply Q.le_max_l].
    destruct (Q.max_spec 0 (t - Clip.startSeconds clip)) as [[M1 M2]|[M1 M2]].
    + rewrite (proj2 (Qltb_iff 0 _)) by lra.
      rewrite (proj2 (Qltb_iff _ t)) by lra. reflexivity.
    + rewrite (proj2 (Qltb_false 0 _)) by lra.
      rewrite (proj2 (Qltb_false _ t)) by lra. reflexivity.
Qed.

(** The theorem at a caption after the scenario clip, and at the clip of
    length zero. *)
Lemma timing_inconsistency_tolerated_witness :
  resolveCaption (Clip.captions scenarioClip) 40 <> Some lateCaption
  /\ progress (fst (step (stoppedAt emptyClip) (TimeUpdate 10))) = NaN.
Proof.
  split.
  - apply (proj1 (timing_inconsistency_tolerated
                    (stoppedAt scenarioClip) scenarioClip 40 lateCaption)).
    + right. vm_compute. reflexivity.
    + vm_compute. discriminate.
    + vm_compute. discriminate.
  - apply (proj2 (timing_inconsistency_tolerated
                    (stoppedAt emptyClip) emptyClip 10 lateCaption)).
    + reflexivity.
    + vm_compute. reflexivity.
Defined.

(** C6 as stated fails on the clip of length zero: the tick at its start
    stores NaN, the tick just after stores Infinity, neither is zero
    progress.  And a caption outside the clip bounds is drawn once the video
    is at a time inside the caption's window. *)
Lemma zero_length_clip_progress_not_zero :
  progress (fst (step (stoppedAt emptyClip) (TimeUpdate 10))) = NaN
  /\ progress (fst (step (stoppedAt emptyClip) (TimeUpdate (101 # 10)))) = PInf
  /\ (Clip.endSeconds scenarioClip < Caption.startSeconds lateCaption)%Q
  /\ resolveCaption [scenarioCaption; lateCaption] 41 = Some lateCaption.
Proof. repeat split; vm_compute; reflexivity. Qed.

End ProgressClaims.

(** ** The export state machine *)

Section ExportFacts.
Import JSString JSNum Player Spec.

Lemma countStops_app (l1 l2 : list Effect) :
  countStops (l1 ++ l2) = (countStops l1 + countStops l2)%nat.
Proof. unfold countStops. rewrite filter_app, length_app. reflexivity. Qed.

Lemma countDownloads_app (l1 l2 : list Effect) :
  countDownloads (l1 ++ l2) = (countDownloads l1 + countDownloads l2)%nat.
Proof. unfold countDownloads. rewrite filter_app, length_app. reflexivity. Qed.

Lemma run_cons (s : State) (e : Event) (rest : list Event) :
  fst (run s (e :: rest)) = fst (run (fst (step s e)) rest)
  /\ snd (run s (e :: rest)) = snd (step s e) ++ snd (run (fst (step s e)) rest).
Proof.
  cbn [run]. destruct (step s e) as [s1 eff1]. cbn [fst snd].
  destruct (run s1 rest) as [s2 eff2]. split; reflexivity.
Qed.

(** The code's boundary test [vidTime >= endSeconds] says that [D] seconds
    of the clip have been played. *)
Lemma boundary_test (clip : Clip.t) (t : Q) :
  Qle_bool (Clip.endSeconds clip) t = reachesBoundary clip (TimeUpdate t).
Proof.
  cbn [reachesBoundary]. unfold clipDuration, playedSeconds.
  destruct (Qle_bool (Clip.endSeconds clip) t) eqn:E; symmetry.
  - apply Qle_bool_iff in E. apply Qle_bool_iff. lra.
  - apply Qle_bool_false in E. apply Qle_bool_false. lra.
Qed.






(** While the recorder records: a tick that reaches the boundary during an
    export stops the capture, once; no other event stops or downloads
    anything; only a rejected play promise ends the export. *)
Lemma step_recording (clip : Clip.t) (s : State) (e : Event) :
  recorderIs recording false s ->
  (isExporting s = true -> activeClip s = Some clip) ->
  if isExporting s && reachesBoundary clip e
  then recorderIs inactive true (fst (step s e))
       /\ snd (step s e) = [CaptureStopped]
  else recorderIs recording false (fst (step s e))
       /\ countStops (snd (step s e)) = 0%nat
       /\ countDownloads (snd (step s e)) = 0%nat
       /\ isExporting (fst (step s e)) = isExporting s && negb (isRejection e)
       /\ (isExporting (fst (step s e)) = true
           -> activeClip (fst (step s e)) = Some clip).
Proof.
  intros [r [Hr [Hst Hq]]] Hclip. destruct s. cbn in Hr, Hclip. subst mediaRecorder0.
  destruct r as [st mt au cl q]. cbn in Hst, Hq. subst st q.
  unfold recorderIs.
  destruct e as [t|clip'| | |data| |];
    cbn [step isRejection negb isExporting];
    try (cbn [reachesBoundary]; rewrite andb_false_r).
  - rewrite <- boundary_test.
    destruct isExporting0; cbn [andb].
    + rewrite (Hclip eq_refl). unfold handleTimeUpdate. cbn.
      destruct (Qle_bool (Clip.endSeconds clip) t); cbn; eauto 8.
    + unfold handleTimeUpdate. cbn.
      destruct activeClip0 as [c0|]; cbn; [|repeat split; eauto; discriminate].
      destruct (Qle_bool (Clip.endSeconds c0) t); cbn;
        repeat split; eauto; discriminate.
  - destruct isExporting0; cbn.
    + repeat split; eauto.
    + repeat split; eauto; discriminate.
  - destruct isExporting0; cbn; repeat split; eauto.
  - destruct isExporting0; cbn; repeat split; eauto.
  - rewrite andb_true_r. cbn. unfold ondataavailable. cbn.
    destruct (0 <? Z.of_nat (List.length data)); cbn; repeat split; eauto.
  - rewrite andb_true_r. cbn. repeat split; eauto.
  - cbn. repeat split; eauto; discriminate.
Qed.

End ExportFacts.

Section ExportRuns.
Import JSString JSNum Player Spec.



(** After a rejected play promise the recorder is never stopped: it keeps
    recording whatever happens next. *)
Lemma run_aborted (clip : Clip.t) (evs : list Event) (s : State) :
  recorderIs recording false s -> isExporting s = false ->
  countStops (snd (run s evs)) = 0%nat
  /\ countDownloads (snd (run s evs)) = 0%nat
  /\ recorderIs recording false (fst (run s evs))
  /\ isExporting (fst (run s evs)) = false.
Proof.
  revert s. induction evs as [|e rest IH]; intros s Hs Hx.
  - repeat split; assumption.
  - destruct (run_cons s e rest) as [-> ->].
    pose proof (step_recording clip s e Hs) as Hstep.
    rewrite Hx in Hstep. cbn [andb] in Hstep.
    destruct (Hstep ltac:(discriminate)) as [Hs' [C1 [C2 [Hx' _]]]].
    destruct (IH _ Hs' Hx') as [D1 [D2 [D3 D4]]].
    rewrite countStops_app, countDownloads_app.
    repeat split; try assumption; lia.
Qed.


(** The state an export starts in. *)
Lemma handleDownloadClip_starts (pf : Platform) (s : State) (clip : Clip.t) :
  activeClip s = Some clip ->
  recorderIs recording false (fst (handleDownloadClip pf s))
  /\ isExporting (fst (handleDownloadClip pf s)) = true
  /\ activeClip (fst (handleDownloadClip pf s)) = Some clip
  /\ recordedChunks (fst (handleDownloadClip pf s)) = []
  /\ video_currentTime (fst (handleDownloadClip pf s)) = Clip.startSeconds clip
  /\ (exists r, mediaRecorder (fst (handleDownloadClip pf s)) = Some r
                /\ capturedClip r = clip /\ mimeType r = mimeTypeFor pf)
  /\ snd (handleDownloadClip pf s) = [CaptureStarted (mimeTypeFor pf); PlayCalled].
Proof.
  intro Hc. unfold handleDownloadClip. rewrite Hc. destruct s. cbn in *.
  unfold recorderIs. cbn. repeat split; eauto.
Qed.

End ExportRuns.

(** ** The claims on the tick at the clip boundary and on the export *)

Section ExportClaims.
Import JSString JSNum Player Spec.

(** C3: on a playback tick at which the current absolute time has reached
    activeClip.endSeconds: if an export is in progress the tick runs the
    export finalization ([finishExport]: a recording capture is stopped, its
    stop event queued, the video paused); otherwise the video is paused, its
    position is rewound to activeClip.startSeconds, the state becomes
    Stopped ([isPlaying] false) and no play call is issued. *)
Theorem tick_at_clip_end (s : State) (clip : Clip.t) (t : Q) :
  activeClip s = Some clip -> (Clip.endSeconds clip <= t)%Q ->
  (isExporting s = true ->
     snd (step s (TimeUpdate t)) = snd (finishExport (video_seek t s))
     /\ mediaRecorder (fst (step s (TimeUpdate t)))
        = mediaRecorder (fst (finishExport (video_seek t s)))
     /\ (forall r, mediaRecorder s = Some r -> state r <> inactive ->
           snd (step s (TimeUpdate t)) = [CaptureStopped]
           /\ video_paused (fst (step s (TimeUpdate t))) = true
           /\ recorderIs inactive true (fst (step s (TimeUpdate t)))))
  /\ (isExporting s = false ->
        video_paused (fst (step s (TimeUpdate t))) = true
        /\ video_currentTime (fst (step s (TimeUpdate t))) = Clip.startSeconds clip
        /\ isPlaying (fst (step s (TimeUpdate t))) = false
        /\ snd (step s (TimeUpdate t)) = []).
Proof.
  intros Hc Hle. apply Qle_bool_iff in Hle.
  destruct s. cbn in Hc. subst activeClip0.
  cbn [step]. unfold handleTimeUpdate, video_seek, set_video. cbn.
  rewrite Hle. split.
  - intros ->. unfold finishExport. cbn.
    destruct mediaRecorder0 as [r|]; cbn.
    + destruct r as [st mt au cl q]. cbn.
      destruct st; cbn; (split; [reflexivity|]; split; [reflexivity|]);
        intros r' E Hne; injection E as <-; cbn in Hne; try congruence;
        unfold recorderIs; cbn; eauto 8.
    + split; [reflexivity|]. split; [reflexivity|]. intros r E. discriminate.
  - intros ->. cbn. repeat split; reflexivity.
Qed.

(** The theorem at the scenario clip, stopped or exporting, with the tick at
    40.2 s. *)
Lemma tick_at_clip_end_witness :
  video_currentTime (fst (step (stoppedAt scenarioClip) (TimeUpdate (402 # 10)))) = 10%Q
  /\ snd (step (fst (handleDownloadClip (mkPlatform true true) (stoppedAt scenarioClip)))
               (TimeUpdate (402 # 10)))
     = [CaptureStopped].
Proof.
  split.
  - apply (proj2 (tick_at_clip_end (stoppedAt scenarioClip) scenarioClip (402 # 10)
                    eq_refl ltac:(vm_compute; discriminate)) eq_refl).
  - eapply (proj1 (tick_at_clip_end
                    (fst (handleDownloadClip (mkPlatform true true)
                                             (stoppedAt scenarioClip)))
                    scenarioClip (402 # 10)
                    eq_refl ltac:(vm_compute; discriminate)) eq_refl).
    + reflexivity.
    + discriminate.
Defined.

(** C5, the behaviour of the code: when the play promise of an export is
    rejected, [isExporting] returns to false and one error is logged, but the
    recorder is left recording: it is not stopped then, nor by anything that
    happens afterwards, and nothing is downloaded. *)
Theorem export_play_rejected_keeps_recording (pf : Platform) (s : State)
        (clip : Clip.t) (evs : list Event) :
  activeClip s = Some clip ->
  isExporting (fst (step (fst (handleDownloadClip pf s)) ExportPlayRejected)) = false
  /\ snd (step (fst (handleDownloadClip pf s)) ExportPlayRejected)
     = [ConsoleError "Export playback failed"]
  /\ recorderIs recording false
       (fst (step (fst (handleDownloadClip pf s)) ExportPlayRejected))
  /\ countStops
       (snd (run (fst (step (fst (handleDownloadClip pf s)) ExportPlayRejected)) evs))
     = 0%nat
  /\ countDownloads
       (snd (run (fst (step (fst (handleDownloadClip pf s)) ExportPlayRejected)) evs))
     = 0%nat
  /\ recorderIs recording false
       (fst (run (fst (step (fst (handleDownloadClip pf s)) ExportPlayRejected)) evs)).
Proof.
  intro Hc.
  destruct (handleDownloadClip_starts pf s clip Hc) as [Hr [Hx [Ha _]]].
  pose proof (step_recording clip _ ExportPlayRejected Hr (fun _ => Ha)) as Hstep.
  cbn [reachesBoundary isRejection negb] in Hstep.
  rewrite !andb_false_r in Hstep.
  destruct Hstep as [Hr' [_ [_ [Hx' _]]]].
  destruct (run_aborted clip evs _ Hr' Hx') as [D1 [D2 [D3 _]]].
  repeat split; try assumption; reflexivity.
Qed.

(** The theorem at the scenario clip: after the rejection even a tick past
    the end of the clip stops nothing. *)
Lemma export_play_rejected_keeps_recording_witness :
  recorderIs recording false
    (fst (run (fst (step (fst (handleDownloadClip (mkPlatform true true)
                                (stoppedAt scenarioClip)))
                         ExportPlayRejected))
              [TimeUpdate 41; RecorderStop])).
Proof.
  apply (export_play_rejected_keeps_recording (mkPlatform true true)
           (stoppedAt scenarioClip) scenarioClip [TimeUpdate 41; RecorderStop] eq_refl).
Defined.




End ExportClaims.

(** ** The name of the exported file *)

Section FileNameClaim.
Import JSString JSNum Player Spec.

Lemma replaceOutside_nth (keep : code_unit -> bool) (r : code_unit)
      (s : JSString.t) (i : nat) (ch : code_unit) :
  nth_error s i = Some ch ->
  nth_error (replaceOutside keep r s) i = Some (if keep ch then ch else r).
Proof.
  intro H. unfold replaceOutside. rewrite nth_error_map, H. reflexivity.
Qed.

(** The tick that reaches the boundary during an export leaves the recorder
    inactive, its stop event queued, with what its [onstop] captured. *)
Lemma tick_stops_recording (s : State) (clip : Clip.t) (t : Q) (r : MediaRecorder) :
  activeClip s = Some clip -> isExporting s = true ->
  mediaRecorder s = Some r -> state r = recording ->
  Qle_bool (Clip.endSeconds clip) t = true ->
  mediaRecorder (fst (step s (TimeUpdate t)))
  = Some (mkRecorder inactive (mimeType r) (withAudioTrack r) (capturedClip r) true).
Proof.
  intros Hc Hx Hr Hst Hle. destruct s. cbn in Hc, Hx, Hr. subst.
  destruct r as [st mt au cl q]. cbn in Hst. subst st.
  cbn [step]. unfold handleTimeUpdate, video_seek, set_video. cbn.
  rewrite Hle. reflexivity.
Qed.

(** The delivery of a queued stop event downloads the assembled chunks
    under the name derived from the captured clip. *)
Lemma recorderStop_downloads (s : State) (r : MediaRecorder) :
  mediaRecorder s = Some r -> stopQueued r = true ->
  snd (step s RecorderStop)
  = [Downloaded (downloadName (capturedClip r)) (List.concat (recordedChunks s))].
Proof.
  intros Hr Hq. cbn [step]. rewrite Hr, Hq. destruct s. reflexivity.
Qed.

(** Both formats the export chooses from are WebM. *)
Lemma formatExtension_webm (pf : Platform) :
  formatExtension (mimeTypeFor pf) = of_string ".webm".
Proof. unfold mimeTypeFor. destruct (vp9Supported pf); vm_compute; reflexivity. Qed.

(** C9: for every clip title, the file downloaded when an export completes
    is named by the title with every code unit outside the ASCII letters and
    digits replaced by an underscore, the others kept in place, followed by
    the extension of the chosen output format, ".webm". *)
Theorem export_file_name (pf : Platform) (s : State) (clip : Clip.t) (t : Q) :
  activeClip s = Some clip -> (Clip.endSeconds clip <= t)%Q ->
  (exists blob,
      snd (step (fst (step (fst (handleDownloadClip pf s)) (TimeUpdate t)))
                RecorderStop)
      = [Downloaded (downloadName clip) blob])
  /\ (exists stem,
         downloadName clip = stem ++ formatExtension (mimeTypeFor pf)
         /\ List.length stem = List.length (Clip.title clip)
         /\ (forall i ch, nth_error (Clip.title clip) i = Some ch ->
               nth_error stem i = Some (if isAlnum ch then ch else underscore)))
  /\ formatExtension (mimeTypeFor pf) = of_string ".webm".
Proof.
  intros Hc Hle. apply Qle_bool_iff in Hle. split; [|split].
  - destruct (handleDownloadClip_starts pf s clip Hc)
      as [[r0 [Hr0 [Hst0 _]]] [Hx [Ha [_ [_ [[r [Hr [Hcl _]]] _]]]]]].
    rewrite Hr in Hr0. injection Hr0 as <-.
    pose proof (tick_stops_recording _ clip t r Ha Hx Hr Hst0 Hle) as Hr2.
    rewrite (recorderStop_downloads _ _ Hr2 eq_refl). cbn [capturedClip].
    rewrite Hcl. eauto.
  - exists (replaceOutside isAlnum underscore (Clip.title clip)).
    split; [|split].
    + unfold downloadName. rewrite formatExtension_webm. reflexivity.
    + unfold replaceOutside. apply length_map.
    + intros i ch. apply replaceOutside_nth.
  - apply formatExtension_webm.
Qed.

(** The theorem at the scenario clip, titled "My first clip! (v2)". *)
Lemma export_file_name_witness :
  (exists blob,
      snd (step (fst (step (fst (handleDownloadClip (mkPlatform false true)
                                   (stoppedAt scenarioClip)))
                           (TimeUpdate 40)))
                RecorderStop)
      = [Downloaded (of_string "My_first_clip___v2_.webm") blob]).
Proof.
  apply (proj1 (export_file_name (mkPlatform false true) (stoppedAt scenarioClip)
                  scenarioClip 40 eq_refl ltac:(vm_compute; discriminate))).
Defined.

End FileNameClaim.

(** ** A remark on the highlight *)

Section HighlightGap.
Import JSString JSNum Render Spec.

(** With more white space in the text than the padding accounts for, the
    windows end before 0.9 D: in the caption "a    b" of six seconds, "b" is
    highlighted at 3 s, no word at 4.5 s, and "b" again at 5.5 s. *)
Remark highlight_gap_example :
  let c := Caption.mk (of_string "a    b") (of_string "00:00") (of_string "00:06") 0 6 in
  activeWordIndex c 3 = 1
  /\ activeWordIndex c (45 # 10) = -1
  /\ activeWordIndex c (55 # 10) = 1.
Proof. repeat split; vm_compute; reflexivity. Qed.

End HighlightGap.

(* ------------------------------------------------------------------ *)
(** * Further properties of the code *)

(** ** Time strings: [formatTime] against [parseTime] *)

Section TimeStrings.
Import JSString JSNum GeminiService TimeFormat Spec.

Lemma digitsValueFrom_app (d r : JSString.t) (a : Z) :
  digitsValueFrom a (d ++ r) = digitsValueFrom (digitsValueFrom a d) r.
Proof. revert a. induction d as [|c d IH]; intro a; cbn; [reflexivity | apply IH]. Qed.

Lemma allDigits_app (a b : JSString.t) :
  allDigits a -> allDigits b -> allDigits (a ++ b).
Proof. unfold allDigits. intros. apply Forall_app. split; assumption. Qed.

(** What the digit loop produces: [n] in decimal, without leading zero. *)
Lemma digitsFuel_spec (f : nat) (n : Z) (acc : JSString.t) :
  (1 <= f)%nat -> 0 <= n < 10 ^ Z.of_nat f ->
  exists d, digitsFuel f n acc = d ++ acc
            /\ allDigits d
            /\ (1 <= List.length d <= f)%nat
            /\ (forall a, digitsValueFrom a d = a * 10 ^ Z.of_nat (List.length d) + n)
            /\ ((List.length d = 1)%nat
                \/ 10 ^ (Z.of_nat (List.length d) - 1) <= n).
Proof.
  revert n acc. induction f as [|f IH]; intros n acc Hf Hn; [lia|].
  cbn [digitsFuel].
  assert (Hmod : 0 <= n mod 10 < 10) by (apply Z.mod_pos_bound; lia).
  assert (Hc : isDigit (Z.to_N (48 + n mod 10)) = true).
  { unfold isDigit. apply andb_true_iff. split; apply N.leb_le; lia. }
  assert (Hv : Z.of_N (Z.to_N (48 + n mod 10)) - 48 = n mod 10) by lia.
  destruct (Z.ltb_spec n 10) as [Hlt|Hge].
  - exists [Z.to_N (48 + n mod 10)]. split; [reflexivity|].
    split; [repeat constructor; exact Hc|]. split; [cbn; lia|]. split.
    + intro a. cbn [digitsValueFrom List.length]. rewrite Hv.
      rewrite Z.mod_small by lia. change (10 ^ Z.of_nat 1) with 10. lia.
    + left. reflexivity.
  - assert (Hf' : (1 <= f)%nat).
    { destruct f; [|lia]. change (10 ^ Z.of_nat 1) with 10 in Hn. lia. }
    assert (Hdiv : 0 <= n / 10 < 10 ^ Z.of_nat f).
    { split; [apply Z.div_pos; lia|].
      apply Z.div_lt_upper_bound; [lia|].
      rewrite Nat2Z.inj_succ, Z.pow_succ_r in Hn by lia. lia. }
    destruct (IH (n / 10) (Z.to_N (48 + n mod 10) :: acc) Hf' Hdiv)
      as [d [Hd [Had [Hlen [Hval Hlead]]]]].
    exists (d ++ [Z.to_N (48 + n mod 10)]). split.
    { rewrite Hd, <- app_assoc. reflexivity. }
    split.
    { apply allDigits_app; [exact Had | repeat constructor; exact Hc]. }
    rewrite length_app. cbn [List.length].
    split; [lia|]. split.
    + intro a. rewrite digitsValueFrom_app, Hval. cbn [digitsValueFrom].
      rewrite Hv.
      replace (Z.of_nat (List.length d + 1)) with (Z.succ (Z.of_nat (List.length d)))
        by lia.
      rewrite Z.pow_succ_r by lia.
      pose proof (Z.div_mod n 10 ltac:(lia)). lia.
    + right.
      replace (Z.of_nat (List.length d + 1) - 1) with (Z.of_nat (List.length d))
        by lia.
      destruct Hlead as [H1|Hle].
      * rewrite H1. change (10 ^ Z.of_nat 1) with 10. lia.
      * replace (Z.of_nat (List.length d))
          with (Z.succ (Z.of_nat (List.length d) - 1)) by lia.
        rewrite Z.pow_succ_r by lia.
        pose proof (Z.div_mod n 10 ltac:(lia)). lia.
Qed.

Lemma natToString_spec (n : Z) :
  0 <= n ->
  allDigits (natToString n)
  /\ (1 <= List.length (natToString n) <= S (Z.to_nat (Z.log2 n)))%nat
  /\ digitsValueFrom 0 (natToString n) = n
  /\ ((List.length (natToString n) = 1)%nat
      \/ 10 ^ (Z.of_nat (List.length (natToString n)) - 1) <= n).
Proof.
  intro Hn. unfold natToString.
  assert (Hb : 0 <= n < 10 ^ Z.of_nat (S (Z.to_nat (Z.log2 n)))).
  { split; [exact Hn|].
    rewrite Nat2Z.inj_succ, Z2Nat.id by apply Z.log2_nonneg.
    destruct (Z.eq_dec n 0) as [->|Hne].
    - cbn. lia.
    - pose proof (Z.log2_spec n ltac:(lia)) as [_ Hlog].
      eapply Z.lt_le_trans; [exact Hlog|].
      apply Z.pow_le_mono_l. pose proof (Z.log2_nonneg n). lia. }
  destruct (digitsFuel_spec (S (Z.to_nat (Z.log2 n))) n [] ltac:(lia) Hb)
    as [d [Hd [Had [Hlen [Hval Hlead]]]]].
  rewrite Hd, app_nil_r. repeat split; try assumption; try lia.
  rewrite Hval. lia.
Qed.

Lemma padStart2_spec (d : JSString.t) :
  allDigits d ->
  allDigits (padStart2 d)
  /\ digitsValueFrom 0 (padStart2 d) = digitsValueFrom 0 d
  /\ (2 <= List.length (padStart2 d))%nat
  /\ (List.length (padStart2 d) <= Nat.max 2 (List.length d))%nat.
Proof.
  intro Hd. unfold padStart2.
  assert (Hz : forall k, allDigits (List.repeat 48%N k)
                         /\ digitsValueFrom 0 (List.repeat 48%N k ++ d)
                            = digitsValueFrom 0 d).
  { induction k as [|k [IH1 IH2]]; cbn.
    - split; [constructor | reflexivity].
    - split; [constructor; [reflexivity | exact IH1] | exact IH2]. }
  destruct (Hz (2 - List.length d)%nat) as [Z1 Z2].
  split; [apply allDigits_app; assumption|]. split; [exact Z2|].
  rewrite !length_app, !repeat_length.
  unfold JSString.t, code_unit in *.
  destruct (Nat.max_spec 2 (List.length d)) as [[? ->]|[? ->]]; lia.
Qed.

(** Splitting at a separator: a piece free of the separator is cut off at
    the first one. *)
Lemma splitOnFrom_piece (sep : code_unit) (d cur r : JSString.t) :
  Forall (fun c => (c =? sep)%N = false) d ->
  splitOnFrom sep cur (d ++ sep :: r) = (rev cur ++ d) :: splitOnFrom sep [] r.
Proof.
  revert cur. induction d as [|c d IH]; intros cur Hd; cbn [app splitOnFrom].
  - rewrite N.eqb_refl, app_nil_r. reflexivity.
  - inversion Hd as [|? ? Hc Hd']; subst. rewrite Hc, (IH _ Hd').
    cbn [rev]. rewrite <- app_assoc. reflexivity.
Qed.

Lemma splitOnFrom_last_piece (sep : code_unit) (d cur : JSString.t) :
  Forall (fun c => (c =? sep)%N = false) d ->
  splitOnFrom sep cur d = [rev cur ++ d].
Proof.
  revert cur. induction d as [|c d IH]; intros cur Hd; cbn [splitOnFrom].
  - rewrite app_nil_r. reflexivity.
  - inversion Hd as [|? ? Hc Hd']; subst. rewrite Hc, (IH _ Hd').
    cbn [rev]. rewrite <- app_assoc. reflexivity.
Qed.

Lemma allDigits_no_colon (d : JSString.t) :
  allDigits d -> Forall (fun c => (c =? colon)%N = false) d.
Proof.
  unfold allDigits. apply Forall_impl. intros c Hc.
  unfold isDigit in Hc. apply andb_true_iff in Hc. destruct Hc as [H1 H2].
  apply N.leb_le in H1, H2. apply N.eqb_neq. unfold colon. lia.
Qed.

Lemma removeOutside_all (keep : code_unit -> bool) (s : JSString.t) :
  Forall (fun c => keep c = true) s -> removeOutside keep s = s.
Proof.
  unfold removeOutside. induction 1 as [|c s Hc Hs IH]; cbn; [reflexivity|].
  rewrite Hc, IH. reflexivity.
Qed.

(** Two runs of digits around a colon parse to minutes and seconds, as
    long as that number is below [2^53]. *)
Lemma parseTime_fields (a b : JSString.t) :
  allDigits a -> allDigits b ->
  digitsValueFrom 0 a * 60 + digitsValueFrom 0 b < 2 ^ 53 ->
  parseTime (a ++ colon :: b)
  = Fin (inject_Z (digitsValueFrom 0 a * 60 + digitsValueFrom 0 b)).
Proof.
  intros Da Db Hv. rewrite parseTime_unfold.
  rewrite removeOutside_all.
  2:{ apply Forall_app. split.
      - revert Da. unfold allDigits. apply Forall_impl.
        intros c Hc. unfold isDigitOrColon. rewrite Hc. reflexivity.
      - constructor.
        + unfold isDigitOrColon. rewrite N.eqb_refl. apply orb_true_r.
        + revert Db. unfold allDigits. apply Forall_impl.
          intros c Hc. unfold isDigitOrColon. rewrite Hc. reflexivity. }
  unfold splitOn.
  rewrite (splitOnFrom_piece colon a [] b (allDigits_no_colon a Da)).
  rewrite (splitOnFrom_last_piece colon b [] (allDigits_no_colon b Db)).
  cbn [rev app List.map]. unfold Number.
  apply seconds_exact; [apply allDigits_value; exact Da
                       | apply allDigits_value; exact Db | exact Hv].
Qed.

(** The whole part of a rational is the only integer at most one below
    it. *)
Lemma Qfloor_unique (x : Q) (z : Z) :
  (inject_Z z <= x)%Q -> (x < inject_Z (z + 1))%Q -> Qfloor x = z.
Proof.
  intros H1 H2.
  pose proof (Qfloor_le x) as F1. pose proof (Qlt_floor x) as F2.
  assert (A : (inject_Z z < inject_Z (Qfloor x + 1))%Q) by lra.
  assert (B : (inject_Z (Qfloor x) < inject_Z (z + 1))%Q) by lra.
  rewrite <- Zlt_Qlt in A, B. lia.
Qed.

(** Minutes and seconds of a non-negative duration. *)
Lemma minutes_seconds (seconds : Q) :
  (0 <= seconds)%Q ->
  0 <= Qfloor (seconds / 60)
  /\ 0 <= Qfloor (remainder seconds 60) < 60
  /\ Qfloor (seconds / 60) * 60 + Qfloor (remainder seconds 60) = Qfloor seconds.
Proof.
  intro H0.
  assert (Hq : (0 <= seconds / 60)%Q).
  { unfold Qdiv. assert ((0 < / 60)%Q) by reflexivity. nra. }
  set (m := Qfloor (seconds / 60)).
  pose proof (Qfloor_le (seconds / 60)) as M1.
  pose proof (Qlt_floor (seconds / 60)) as M2. fold m in M1, M2.
  assert (Hm : 0 <= m).
  { unfold m. rewrite <- (Qfloor_Z 0). apply Qfloor_resp_le. exact Hq. }
  assert (Hs60 : (seconds == seconds / 60 * 60)%Q) by (field).
  rewrite inject_Z_plus in M2. change (inject_Z 1) with 1%Q in M2.
  assert (Hr : (remainder seconds 60 == seconds - 60 * inject_Z m)%Q).
  { unfold remainder, Qtrunc.
    rewrite (proj2 (Qle_bool_iff 0 (seconds / 60)) Hq). reflexivity. }
  assert (R1 : (0 <= remainder seconds 60)%Q) by (rewrite Hr; lra).
  assert (R2 : (remainder seconds 60 < 60)%Q) by (rewrite Hr; lra).
  set (s := Qfloor (remainder seconds 60)).
  pose proof (Qfloor_le (remainder seconds 60)) as S1.
  pose proof (Qlt_floor (remainder seconds 60)) as S2. fold s in S1, S2.
  rewrite inject_Z_plus in S2. change (inject_Z 1) with 1%Q in S2.
  assert (Hs : 0 <= s < 60).
  { split.
    - unfold s. rewrite <- (Qfloor_Z 0). apply Qfloor_resp_le. exact R1.
    - assert (A : (inject_Z s < inject_Z 60)%Q) by (change (inject_Z 60) with 60%Q; lra).
      rewrite <- Zlt_Qlt in A. exact A. }
  split; [exact Hm|]. split; [exact Hs|].
  symmetry. apply Qfloor_unique.
  - rewrite inject_Z_plus, inject_Z_mult. change (inject_Z 60) with 60%Q. lra.
  - rewrite !inject_Z_plus, inject_Z_mult.
    change (inject_Z 60) with 60%Q. change (inject_Z 1) with 1%Q. lra.
Qed.

End TimeStrings.

Section TimeStringProperties.
Import JSString JSNum GeminiService TimeFormat Spec.

(** Below [2^53] seconds the minutes and the seconds are written with all
    their digits. *)
Lemma fields_toString (seconds : Q) :
  (0 <= seconds)%Q -> (seconds < inject_Z (2 ^ 53))%Q ->
  toString (Qfloor (seconds / 60)) = Some (natToString (Qfloor (seconds / 60)))
  /\ toString (Qfloor (remainder seconds 60))
     = Some (natToString (Qfloor (remainder seconds 60)))
  /\ Qfloor seconds < 2 ^ 53.
Proof.
  intros H0 Hb. destruct (minutes_seconds seconds H0) as [Hm [Hs Hsum]].
  assert (Hfl : Qfloor seconds < 2 ^ 53).
  { pose proof (Qfloor_le seconds) as F.
    assert (A : (inject_Z (Qfloor seconds) < inject_Z (2 ^ 53))%Q)
      by (eapply Qle_lt_trans; [exact F | exact Hb]).
    rewrite <- Zlt_Qlt in A. exact A. }
  assert (H60 : 60 < 2 ^ 53) by reflexivity.
  split; [|split; [|exact Hfl]].
  - unfold toString. rewrite Z.abs_eq by lia.
    rewrite (proj2 (Z.leb_gt _ _)) by lia.
    rewrite (proj2 (Z.ltb_ge _ 0)) by lia. reflexivity.
  - unfold toString. rewrite Z.abs_eq by lia.
    rewrite (proj2 (Z.leb_gt _ _)) by lia.
    rewrite (proj2 (Z.ltb_ge _ 0)) by lia. reflexivity.
Qed.

Lemma seconds_digits (seconds : Q) :
  (0 <= seconds)%Q ->
  List.length (padStart2 (natToString (Qfloor (remainder seconds 60)))) = 2%nat.
Proof.
  intro H0. destruct (minutes_seconds seconds H0) as [_ [Hs _]].
  destruct (natToString_spec _ (proj1 Hs)) as [_ [[Hl1 _] [_ Hlead]]].
  assert (Hl2 : (List.length (natToString (Qfloor (remainder seconds 60))) <= 2)%nat).
  { destruct Hlead as [->|Hle]; [lia|].
    destruct (Nat.le_gt_cases
                (List.length (natToString (Qfloor (remainder seconds 60)))) 2)
      as [?|Hgt]; [assumption|].
    exfalso.
    assert (10 ^ 2 <= 10 ^ (Z.of_nat (List.length
              (natToString (Qfloor (remainder seconds 60)))) - 1))
      by (apply Z.pow_le_mono_r; lia).
    change (10 ^ 2) with 100 in *. lia. }
  unfold padStart2. rewrite length_app, repeat_length.
  unfold JSString.t, code_unit in *. lia.
Qed.

(** X1: the upload form's [formatTime] and [parseTime] are inverse up to
    whole seconds: for every finite duration of at least 0 and below 2^53
    seconds, [formatTime] gives an "MM:SS" string, and parsing it gives the
    duration rounded down to a whole number of seconds. *)
Theorem formatTimeUploader_parseTime (seconds : Q) :
  (0 <= seconds)%Q -> (seconds < inject_Z (2 ^ 53))%Q ->
  exists str, formatTimeUploader (Fin seconds) = Some str
              /\ parseTime str = Fin (inject_Z (Qfloor seconds)).
Proof.
  intros H0 Hb.
  destruct (minutes_seconds seconds H0) as [Hm [Hs Hsum]].
  destruct (fields_toString seconds H0 Hb) as [Tm [Ts Hfl]].
  destruct (natToString_spec _ Hm) as [Dm [_ [Vm _]]].
  destruct (natToString_spec _ (proj1 Hs)) as [Ds [_ [Vs _]]].
  destruct (padStart2_spec _ Dm) as [Pm [PVm _]].
  destruct (padStart2_spec _ Ds) as [Ps [PVs _]].
  unfold formatTimeUploader. cbv zeta. rewrite Tm, Ts.
  eexists. split; [reflexivity|].
  rewrite (parseTime_fields _ _ Pm Ps); rewrite PVm, PVs, Vm, Vs, Hsum;
    [reflexivity | exact Hfl].
Qed.

(** The theorem at 75.4 seconds, shown as "01:15": 75 seconds. *)
Lemma formatTimeUploader_parseTime_witness :
  exists str, formatTimeUploader (Fin (754 # 10)) = Some str
              /\ str = of_string "01:15" /\ parseTime str = Fin 75.
Proof.
  destruct (formatTimeUploader_parseTime (754 # 10)) as [str [H1 H2]].
  - vm_compute. discriminate.
  - vm_compute. reflexivity.
  - exists str. split; [exact H1|]. split; [|exact H2].
    vm_compute in H1. injection H1 as <-. reflexivity.
Defined.

(** X2: the player's [formatTime] ("M:SS") parses back the same way: for
    every finite time of at least 0 and below 2^53 seconds, [parseTime] of
    the formatted string is the time rounded down to whole seconds. *)
Theorem formatTimePlayer_parseTime (seconds : Q) :
  (0 <= seconds)%Q -> (seconds < inject_Z (2 ^ 53))%Q ->
  exists str, formatTimePlayer (Fin seconds) = Some str
              /\ parseTime str = Fin (inject_Z (Qfloor seconds)).
Proof.
  intros H0 Hb.
  destruct (minutes_seconds seconds H0) as [Hm [Hs Hsum]].
  destruct (fields_toString seconds H0 Hb) as [Tm [Ts Hfl]].
  destruct (natToString_spec _ Hm) as [Dm [_ [Vm _]]].
  destruct (natToString_spec _ (proj1 Hs)) as [Ds [_ [Vs _]]].
  destruct (padStart2_spec _ Ds) as [Ps [PVs _]].
  unfold formatTimePlayer. cbv zeta. rewrite Tm, Ts.
  eexists. split; [reflexivity|].
  rewrite (parseTime_fields _ _ Dm Ps); rewrite PVs, Vm, Vs, Hsum;
    [reflexivity | exact Hfl].
Qed.

(** The theorem at 3725 seconds, shown as "62:05". *)
Lemma formatTimePlayer_parseTime_witness :
  exists str, formatTimePlayer (Fin 3725) = Some str
              /\ str = of_string "62:05" /\ parseTime str = Fin 3725.
Proof.
  destruct (formatTimePlayer_parseTime 3725) as [str [H1 H2]].
  - vm_compute. discriminate.
  - vm_compute. reflexivity.
  - exists str. split; [exact H1|]. split; [|exact H2].
    vm_compute in H1. injection H1 as <-. reflexivity.
Defined.

(** X3: the shape of a formatted time, for a finite time of at least 0 and
    below 2^53 seconds: digits, a colon, and exactly two digits of seconds
    with a value below 60; the player writes the minutes without leading
    zero, the upload form pads the same minutes to two digits at least. *)
Theorem formatTime_shape (seconds : Q) :
  (0 <= seconds)%Q -> (seconds < inject_Z (2 ^ 53))%Q ->
  exists mm ss,
    formatTimePlayer (Fin seconds) = Some (mm ++ colon :: ss)
    /\ formatTimeUploader (Fin seconds) = Some (padStart2 mm ++ colon :: ss)
    /\ allDigits mm /\ allDigits ss
    /\ List.length ss = 2%nat
    /\ digitsValueFrom 0 ss < 60
    /\ ((List.length mm = 1)%nat
        \/ 10 ^ (Z.of_nat (List.length mm) - 1) <= digitsValueFrom 0 mm)
    /\ (2 <= List.length (padStart2 mm))%nat.
Proof.
  intros H0 Hb.
  destruct (minutes_seconds seconds H0) as [Hm [Hs Hsum]].
  destruct (fields_toString seconds H0 Hb) as [Tm [Ts Hfl]].
  pose proof (seconds_digits seconds H0) as Ls.
  destruct (natToString_spec _ Hm) as [Dm [_ [Vm Leadm]]].
  destruct (natToString_spec _ (proj1 Hs)) as [Ds [_ [Vs _]]].
  destruct (padStart2_spec _ Dm) as [_ [_ [PLm _]]].
  destruct (padStart2_spec _ Ds) as [Ps [PVs _]].
  exists (natToString (Qfloor (seconds / 60))),
         (padStart2 (natToString (Qfloor (remainder seconds 60)))).
  unfold formatTimePlayer, formatTimeUploader. cbv zeta. rewrite Tm, Ts.
  repeat split; try assumption.
  - rewrite PVs, Vs. lia.
  - rewrite Vm. exact Leadm.
Qed.

(** The theorem at 5 seconds: "0:05" in the player, "00:05" in the form. *)
Lemma formatTime_shape_witness :
  exists mm ss,
    formatTimePlayer (Fin 5) = Some (mm ++ colon :: ss)
    /\ formatTimeUploader (Fin 5) = Some (padStart2 mm ++ colon :: ss)
    /\ List.length ss = 2%nat.
Proof.
  destruct (formatTime_shape 5) as [mm [ss [H1 [H2 [_ [_ [H3 _]]]]]]].
  - vm_compute. discriminate.
  - vm_compute. reflexivity.
  - exists mm, ss. repeat split; assumption.
Defined.

(** Outside that range the shape is another: a stream reports an infinite
    duration, which both helpers show by name, with [NaN] for seconds. *)
Remark formatTime_infinite :
  formatTimeUploader PInf = Some (of_string "Infinity:NaN")
  /\ formatTimePlayer PInf = Some (of_string "Infinity:NaN")
  /\ formatTimePlayer (Fin (-5)) = Some (of_string "-1:-5").
Proof. repeat split; vm_compute; reflexivity. Qed.

End TimeStringProperties.

(** ** The player: seeking and selecting against the tick *)

Section SeekAndSelect.
Import JSString JSNum Player Controls Spec.

(** A tick before the end of the clip changes nothing but the stored
    times and progress. *)
Lemma tick_inside (s : State) (clip : Clip.t) (t : Q) :
  activeClip s = Some clip -> Qle_bool (Clip.endSeconds clip) t = false ->
  snd (step s (TimeUpdate t)) = []
  /\ video_currentTime (fst (step s (TimeUpdate t))) = t
  /\ video_paused (fst (step s (TimeUpdate t))) = video_paused s
  /\ isPlaying (fst (step s (TimeUpdate t))) = isPlaying s
  /\ activeClip (fst (step s (TimeUpdate t))) = Some clip
  /\ currentTime (fst (step s (TimeUpdate t)))
     = Qmax 0 (t - Clip.startSeconds clip).
Proof.
  intros Hc Hlt. destruct s. cbn in Hc. subst activeClip0.
  cbn [step]. unfold handleTimeUpdate, video_seek, set_video. cbn.
  rewrite Hlt. destruct isExporting0; cbn; repeat split; reflexivity.
Qed.






End SeekAndSelect.

Section SelectClip.
Import JSString JSNum Player Spec.

(** X6: selecting a clip resets the player to its start, and selecting it
    again changes nothing: after [playClip] the clip is active, the video is
    at startSeconds and playing, relative time and progress are 0; a second
    [playClip] of the same clip leaves that state as it is; and for a clip
    with endSeconds > startSeconds the first time update, at startSeconds,
    stores progress 0 again and does not stop the playback. *)
Theorem playClip_resets (s : State) (clip : Clip.t) :
  (Clip.startSeconds clip < Clip.endSeconds clip)%Q ->
  activeClip (fst (playClip clip s)) = Some clip
  /\ video_currentTime (fst (playClip clip s)) = Clip.startSeconds clip
  /\ video_paused (fst (playClip clip s)) = false
  /\ currentTime (fst (playClip clip s)) = 0%Q
  /\ progress (fst (playClip clip s)) = Fin 0
  /\ fst (playClip clip (fst (playClip clip s))) = fst (playClip clip s)
  /\ (exists q,
         progress (fst (step (fst (playClip clip s))
                             (TimeUpdate (Clip.startSeconds clip)))) = Fin q
         /\ (q == 0)%Q)
  /\ video_paused (fst (step (fst (playClip clip s))
                             (TimeUpdate (Clip.startSeconds clip)))) = false
  /\ snd (step (fst (playClip clip s)) (TimeUpdate (Clip.startSeconds clip))) = [].
Proof.
  intro Hd.
  assert (Hf : activeClip (fst (playClip clip s)) = Some clip
               /\ video_currentTime (fst (playClip clip s)) = Clip.startSeconds clip
               /\ video_paused (fst (playClip clip s)) = false
               /\ currentTime (fst (playClip clip s)) = 0%Q
               /\ progress (fst (playClip clip s)) = Fin 0
               /\ fst (playClip clip (fst (playClip clip s))) = fst (playClip clip s)).
  { destruct s. cbn. repeat split; reflexivity. }
  destruct Hf as [F1 [F2 [F3 [F4 [F5 F6]]]]].
  repeat (split; [assumption|]).
  assert (Hlt : Qle_bool (Clip.endSeconds clip) (Clip.startSeconds clip) = false)
    by (apply Qle_bool_false; exact Hd).
  destruct (tick_inside _ clip _ F1 Hlt) as [E1 [_ [E3 _]]].
  split; [|split].
  - rewrite (tick_progress _ clip _ F1).
    destruct (percent_inside
                (Qmax 0 (Clip.startSeconds clip - Clip.startSeconds clip))
                (Clip.endSeconds clip - Clip.startSeconds clip)) as [P1 _].
    + lra.
    + apply Q.le_max_l.
    + rewrite Q.max_l by lra. lra.
    + eexists. split; [exact P1|]. rewrite Q.max_l by lra.
      unfold Qdiv. rewrite !Qmult_0_l. reflexivity.
  - rewrite E3. exact F3.
  - exact E1.
Qed.

(** The theorem at the scenario clip. *)
Lemma playClip_resets_witness :
  fst (playClip scenarioClip (fst (playClip scenarioClip (stoppedAt emptyClip))))
  = fst (playClip scenarioClip (stoppedAt emptyClip)).
Proof.
  apply (playClip_resets (stoppedAt emptyClip) scenarioClip).
  vm_compute. reflexivity.
Defined.

End SelectClip.

(** ** The export: what is recorded, and what is frozen meanwhile *)

Section ExportInvariants.
Import JSString JSNum Player Spec Terms.

Lemma chunksOf_app (a b : list Event) :
  chunksOf (a ++ b) = chunksOf a ++ chunksOf b.
Proof.
  induction a as [|e a IH]; [reflexivity|].
  destruct e; cbn [app chunksOf]; try exact IH.
  destruct (0 <? Z.of_nat (List.length data)); [cbn; rewrite IH|]; auto.
Qed.

Lemma step_collecting (clip : Clip.t) (done : list Event) (s : State) (e : Event) :
  collecting clip done s ->
  collecting clip (done ++ [e]) (fst (step s e))
  /\ forall name blob, In (Downloaded name blob) (snd (step s e)) ->
       e = RecorderStop /\ name = downloadName clip
       /\ blob = List.concat (chunksOf done).
Proof.
  intros [Hch [r [Hr Hcl]]]. destruct s. cbn in Hch, Hr. subst.
  destruct r as [st mt au cl q]. cbn [capturedClip].
  unfold collecting. rewrite chunksOf_app.
  destruct e as [t|clip'| | |data| |]; cbn [step chunksOf].
  - unfold handleTimeUpdate, video_seek, set_video. cbn.
    destruct activeClip0 as [c0|]; cbn.
    2:{ rewrite app_nil_r. split; [eauto|]. intros ? ? []. }
    destruct (Qle_bool (Clip.endSeconds c0) t); destruct isExporting0;
      unfold finishExport; cbn; try destruct st; cbn; rewrite app_nil_r;
      (split; [eauto|]); intros ? ? H; cbn in H;
      repeat (destruct H as [H|H]; try discriminate H); contradiction.
  - cbn. destruct isExporting0; cbn; rewrite app_nil_r;
      (split; [eauto|]); intros ? ? H; cbn in H;
      repeat (destruct H as [H|H]; try discriminate H); contradiction.
  - cbn. destruct isExporting0; cbn; rewrite app_nil_r;
      (split; [eauto|]); intros ? ? [].
  - cbn. destruct isExporting0; cbn; rewrite app_nil_r;
      (split; [eauto|]); intros ? ? [].
  - cbn. unfold ondataavailable. cbn.
    destruct (0 <? Z.of_nat (List.length data)); cbn; rewrite ?app_nil_r;
      (split; [eauto|]); intros ? ? [].
  - cbn. rewrite app_nil_r. destruct q; cbn.
    + split; [eauto|]. intros name blob [H|[]]. injection H as <- <-. auto.
    + split; [eauto|]. intros ? ? [].
  - cbn. rewrite app_nil_r. split; [eauto|].
    intros ? ? H; cbn in H;
      repeat (destruct H as [H|H]; try discriminate H); contradiction.
Qed.

Lemma run_collecting (clip : Clip.t) (evs done : list Event) (s : State) :
  collecting clip done s ->
  forall name blob, In (Downloaded name blob) (snd (run s evs)) ->
    name = downloadName clip
    /\ exists pre post, evs = pre ++ RecorderStop :: post
                        /\ blob = List.concat (chunksOf (done ++ pre)).
Proof.
  revert done s. induction evs as [|e rest IH]; intros done s Hs name blob Hin.
  - destruct Hin.
  - destruct (run_cons s e rest) as [_ E]. rewrite E in Hin.
    destruct (step_collecting clip done s e Hs) as [Hs' Hd].
    apply in_app_or in Hin. destruct Hin as [Hin|Hin].
    + destruct (Hd _ _ Hin) as [-> [-> ->]]. split; [reflexivity|].
      exists [], rest. rewrite app_nil_r. split; reflexivity.
    + destruct (IH _ _ Hs' _ _ Hin) as [Hn [pre [post [-> Hb]]]].
      split; [exact Hn|]. exists (e :: pre), post.
      rewrite <- app_assoc in Hb. split; [reflexivity | exact Hb].
Qed.

(** X7: what an export downloads.  After [handleDownloadClip] on clip c,
    whatever events follow, every download is named after c and its blob is
    the concatenation, in order of arrival, of exactly the non-empty chunks
    delivered between the start of the export and the recorder's stop event
    that triggers the download; chunks left from an earlier recording are
    not part of it. *)
Theorem export_blob_is_chunks_in_order (pf : Platform) (s : State) (clip : Clip.t)
        (evs : list Event) (name : JSString.t) (blob : Blob) :
  activeClip s = Some clip ->
  In (Downloaded name blob) (snd (run (fst (handleDownloadClip pf s)) evs)) ->
  name = downloadName clip
  /\ exists pre post, evs = pre ++ RecorderStop :: post
                      /\ blob = List.concat (chunksOf pre).
Proof.
  intros Hc Hin.
  destruct (handleDownloadClip_starts pf s clip Hc)
    as [_ [_ [_ [Hch [_ [[r [Hr [Hcl _]]] _]]]]]].
  apply (run_collecting clip evs [] (fst (handleDownloadClip pf s))); [|exact Hin].
  split; [exact Hch | eauto].
Qed.

(** The theorem on a run of the scenario clip with an empty chunk and two
    chunks of data. *)
Lemma export_blob_is_chunks_in_order_witness :
  exists pre post,
    [DataAvailable [7%N]; DataAvailable []; TimeUpdate 40;
     DataAvailable [8%N; 9%N]; RecorderStop]
    = pre ++ RecorderStop :: post
    /\ [7%N; 8%N; 9%N] = List.concat (chunksOf pre).
Proof.
  apply (export_blob_is_chunks_in_order (mkPlatform true true)
           (stoppedAt scenarioClip) scenarioClip
           [DataAvailable [7%N]; DataAvailable []; TimeUpdate 40;
            DataAvailable [8%N; 9%N]; RecorderStop]
           (downloadName scenarioClip) [7%N; 8%N; 9%N] eq_refl).
  vm_compute. right. left. reflexivity.
Defined.

End ExportInvariants.

Section ExportFreeze.
Import JSString JSNum Player Spec.

Lemma step_keeps_exporting (s : State) (e : Event) :
  isExporting (fst (step s e)) = true ->
  isExporting s = true
  /\ isPlaying (fst (step s e)) = isPlaying s
  /\ activeClip (fst (step s e)) = activeClip s.
Proof.
  destruct s. destruct e as [t|clip| | |data| |]; cbn [step].
  - unfold handleTimeUpdate, video_seek, set_video. cbn.
    destruct activeClip0 as [c0|]; cbn; [|auto].
    destruct (Qle_bool (Clip.endSeconds c0) t); destruct isExporting0;
      unfold finishExport; cbn;
      try (destruct mediaRecorder0 as [[[] ? ? ? ?]|]; cbn);
      intro H; try discriminate H; auto.
  - cbn. destruct isExporting0; cbn; intro H; try discriminate H; auto.
  - cbn. destruct isExporting0; cbn; intro H; try discriminate H; auto.
  - cbn. destruct isExporting0; cbn; intro H; try discriminate H; auto.
  - cbn. unfold ondataavailable. cbn.
    destruct mediaRecorder0; cbn;
      try destruct (0 <? Z.of_nat (List.length data)); cbn; auto.
  - cbn. destruct mediaRecorder0 as [[? ? ? ? []]|]; cbn;
      intro H; try discriminate H; auto.
  - cbn. discriminate.
Qed.

Lemma export_freezes_selection_aux (evs : list Event) (s : State) :
  isExporting (fst (run s evs)) = true ->
  isExporting s = true
  /\ isPlaying (fst (run s evs)) = isPlaying s
  /\ activeClip (fst (run s evs)) = activeClip s.
Proof.
  revert s. induction evs as [|e rest IH]; intros s H.
  - cbn in *. auto.
  - destruct (run_cons s e rest) as [E _]. rewrite E in *.
    destruct (IH _ H) as [H1 [H2 H3]].
    destruct (step_keeps_exporting s e H1) as [G1 [G2 G3]].
    split; [exact G1|]. split; congruence.
Qed.

(** X8: an export freezes the selection.  If [isExporting] still holds
    after a sequence of events, then it held from the start and neither the
    active clip nor the play indicator [isPlaying] has changed: clip clicks
    and the video's play and pause events are ignored while exporting. *)
Theorem export_freezes_selection (evs : list Event) (s : State) :
  isExporting (fst (run s evs)) = true ->
  isExporting s = true
  /\ isPlaying (fst (run s evs)) = isPlaying s
  /\ activeClip (fst (run s evs)) = activeClip s.
Proof. exact (export_freezes_selection_aux evs s). Qed.

(** The theorem on an export of the scenario clip during which another clip
    is clicked and the video reports play and pause. *)
Lemma export_freezes_selection_witness :
  activeClip
    (fst (run (fst (handleDownloadClip (mkPlatform true true) (stoppedAt scenarioClip)))
              [VideoPlay; ClipClicked emptyClip; TimeUpdate 20; VideoPause]))
  = Some scenarioClip.
Proof.
  apply (export_freezes_selection
           [VideoPlay; ClipClicked emptyClip; TimeUpdate 20; VideoPause]
           (fst (handleDownloadClip (mkPlatform true true) (stoppedAt scenarioClip)))).
  vm_compute. reflexivity.
Defined.

End ExportFreeze.

(** ** The word highlight: range and coverage *)

Section HighlightCoverage.
Import JSString JSNum Render Spec Terms.

(** X9: the highlight index is always usable.  For every caption and every
    time the index is -1 or the index of one of the caption's words, and
    once 90 percent of the caption's duration have passed it is never -1:
    the final stretch of a caption always has a highlighted word. *)
Theorem activeWordIndex_in_range (c : Caption.t) (t : Q) :
  -1 <= activeWordIndex c t < Z.of_nat (List.length (captionWords c))
  /\ (((9 # 10) * captionD c <= elapsedT c t)%Q -> 0 <= activeWordIndex c t).
Proof.
  rewrite activeWordIndex_unfold. cbv zeta.
  pose proof (captionWords_nonempty c) as Hne.
  pose proof (wordLoop_range (perCharDuration c) (elapsedT c t) (captionWords c) 0 0)
    as R.
  split.
  - destruct ((wordLoop (perCharDuration c) (elapsedT c t) (captionWords c) 0 0 =? -1)
              && Qle_bool (captionD c * (9 # 10)) (elapsedT c t)); lia.
  - intro H90.
    assert (E : Qle_bool (captionD c * (9 # 10)) (elapsedT c t) = true).
    { apply Qle_bool_iff. lra. }
    rewrite E, andb_true_r.
    destruct (Z.eqb_spec (wordLoop (perCharDuration c) (elapsedT c t)
                                   (captionWords c) 0 0) (-1)); lia.
Qed.

(** The theorem at the scenario caption, 3.9 s into its 4 s. *)
Lemma activeWordIndex_in_range_witness :
  0 <= activeWordIndex scenarioCaption (159 # 10).
Proof.
  apply (proj2 (activeWordIndex_in_range scenarioCaption (159 # 10))).
  vm_compute. discriminate.
Defined.

End HighlightCoverage.

Section WellFormedCaptions.
Import JSString JSNum Render Spec Terms.

Lemma trimStart_word_head (c : code_unit) (s : JSString.t) :
  isWhiteSpace c = false -> trimStart (c :: s) = c :: s.
Proof. intro H. cbn. rewrite H. reflexivity. Qed.

Lemma trim_fixed (c y : code_unit) (s pre : JSString.t) :
  isWhiteSpace c = false -> isWhiteSpace y = false ->
  c :: s = pre ++ [y] -> trim (c :: s) = c :: s.
Proof.
  intros Hc Hy E. unfold trim, trimEnd. rewrite (trimStart_word_head c s Hc).
  rewrite E, rev_unit, (trimStart_word_head y _ Hy).
  rewrite <- rev_unit, rev_involutive. reflexivity.
Qed.

Lemma joinWords_cons (w w2 : JSString.t) (rest : list JSString.t) :
  joinWords (w :: w2 :: rest) = w ++ 32%N :: joinWords (w2 :: rest).
Proof. reflexivity. Qed.

(** A line of words starts and ends with a code unit that is not white
    space. *)
Lemma joinWords_ends (w : JSString.t) (rest : list JSString.t) :
  Forall isWord (w :: rest) ->
  (exists c s, joinWords (w :: rest) = c :: s /\ isWhiteSpace c = false)
  /\ (exists pre y, joinWords (w :: rest) = pre ++ [y] /\ isWhiteSpace y = false).
Proof.
  revert w. induction rest as [|w2 rest IH]; intros w Hall.
  - inversion Hall as [|? ? [Hne Hw] _]; subst. cbn [joinWords]. split.
    + destruct w as [|c s]; [contradiction|]. inversion Hw; subst. eauto.
    + destruct (exists_last Hne) as [pre [y ->]].
      apply Forall_app in Hw. destruct Hw as [_ Hy]. inversion Hy; subst. eauto.
  - inversion Hall as [|? ? [Hne Hw] Hrest]; subst.
    rewrite joinWords_cons. destruct (IH w2 Hrest) as [_ [pre [y [E Hy]]]]. split.
    + destruct w as [|c s]; [contradiction|]. inversion Hw; subst. cbn. eauto.
    + exists (w ++ 32%N :: pre), y. rewrite E.
      rewrite <- app_assoc. cbn. split; [reflexivity | exact Hy].
Qed.

Lemma splitWsFrom_word (w cur r : JSString.t) (inWs : bool) :
  w <> [] -> Forall (fun ch => isWhiteSpace ch = false) w ->
  splitWsFrom inWs cur (w ++ r) = splitWsFrom false (rev w ++ cur) r.
Proof.
  revert cur inWs. induction w as [|c w IH]; intros cur inWs Hne Hw;
    [contradiction|].
  inversion Hw as [|? ? Hc Hw']; subst.
  cbn [app splitWsFrom]. rewrite Hc.
  destruct w as [|c2 w].
  - reflexivity.
  - rewrite IH by (try discriminate; assumption).
    cbn [rev]. rewrite <- !app_assoc. reflexivity.
Qed.

(** Splitting a line of words gives the words back. *)
Lemma splitWs_joinWords (w : JSString.t) (rest : list JSString.t) (inWs : bool) :
  Forall isWord (w :: rest) ->
  splitWsFrom inWs [] (joinWords (w :: rest)) = w :: rest.
Proof.
  revert w inWs. induction rest as [|w2 rest IH]; intros w inWs Hall;
    inversion Hall as [|? ? [Hne Hw] Hrest]; subst.
  - cbn [joinWords]. rewrite <- (app_nil_r w) at 1.
    rewrite splitWsFrom_word by assumption.
    cbn. rewrite app_nil_r, rev_involutive. reflexivity.
  - rewrite joinWords_cons, splitWsFrom_word by assumption.
    cbn [splitWsFrom]. change (isWhiteSpace 32%N) with true. cbn iota.
    rewrite app_nil_r, rev_involutive, (IH w2 true Hrest). reflexivity.
Qed.

Lemma joinWords_length (w : JSString.t) (rest : list JSString.t) :
  fold_right (fun w a => paddedLength w + a) 0 (w :: rest)
  = JSString.length (joinWords (w :: rest)) + 1.
Proof.
  revert w. induction rest as [|w2 rest IH]; intro w.
  - cbn [fold_right joinWords]. unfold paddedLength. lia.
  - rewrite joinWords_cons. cbn [fold_right] in *. rewrite (IH w2).
    unfold paddedLength, JSString.length. rewrite length_app. cbn [List.length].
    lia.
Qed.

(** A time inside the span of the remaining windows is found by the
    walk. *)
Lemma wordLoop_finds (cd tp : Q) (rest : list JSString.t) (i acc : Z) :
  (inject_Z acc * cd <= tp)%Q ->
  (tp < inject_Z (acc + fold_right (fun w a => paddedLength w + a) 0 rest)%Z * cd)%Q ->
  i <= wordLoop cd tp rest i acc < i + Z.of_nat (List.length rest).
Proof.
  revert i acc. induction rest as [|w rest IH]; intros i acc Hlo Hhi.
  - cbn [fold_right] in Hhi. rewrite Z.add_0_r in Hhi. lra.
  - cbn [wordLoop List.length].
    destruct (Qle_bool (inject_Z acc * cd) tp
              && Qltb tp (inject_Z (acc + (JSString.length w + 1)) * cd)) eqn:E.
    + lia.
    + apply andb_false_iff in E. destruct E as [E|E].
      * apply Qle_bool_false in E. lra.
      * apply Qltb_false in E.
        cbn [fold_right] in Hhi. unfold paddedLength in Hhi at 1.
        rewrite Z.add_assoc in Hhi.
        specialize (IH (i + 1) (acc + (JSString.length w + 1)) E Hhi). lia.
Qed.

(** X10: a caption written as words separated by single spaces is never
    without highlight.  When the text of a caption is a non-empty list of
    words joined by single spaces (no leading, trailing or doubled white
    space) and endSeconds > startSeconds, then the words the renderer draws
    are exactly these words and, at every time of the caption's window (both
    ends included), one of them is highlighted. *)
Theorem spaced_caption_always_highlighted (c : Caption.t) (w : JSString.t)
        (rest : list JSString.t) (t : Q) :
  Forall isWord (w :: rest) ->
  Caption.text c = joinWords (w :: rest) ->
  (Caption.startSeconds c < Caption.endSeconds c)%Q ->
  captionAt t c = true ->
  captionWords c = w :: rest
  /\ 0 <= activeWordIndex c t < Z.of_nat (List.length (w :: rest))
  /\ exists word, activeWord c t = Some word /\ In word (w :: rest).
Proof.
  intros Hall Htext Hd Hat.
  apply captionAt_iff in Hat. destruct Hat as [T1 T2].
  destruct (joinWords_ends w rest Hall) as [[ch [s [E1 Hch]]] [pre [y [E2 Hy]]]].
  assert (Hwords : captionWords c = w :: rest).
  { unfold captionWords, splitWs. rewrite Htext, E1.
    rewrite (trim_fixed ch y s pre Hch Hy) by (rewrite <- E1; exact E2).
    rewrite <- E1. apply splitWs_joinWords. exact Hall. }
  split; [exact Hwords|].
  assert (Hidx : 0 <= activeWordIndex c t < Z.of_nat (List.length (w :: rest))).
  { rewrite activeWordIndex_unfold. cbv zeta. rewrite Hwords.
    assert (Hlen : 1 <= JSString.length (Caption.text c)).
    { rewrite Htext, E1. unfold JSString.length. cbn [List.length]. lia. }
    assert (Hk : (1 <= inject_Z (JSString.length (Caption.text c)))%Q).
    { change 1%Q with (inject_Z 1). rewrite <- Zle_Qle. exact Hlen. }
    assert (Hcd : (perCharDuration c * inject_Z (JSString.length (Caption.text c))
                   == captionD c)%Q).
    { unfold perCharDuration. rewrite Z.max_r by lia. field. lra. }
    assert (HD : (0 < captionD c)%Q) by (unfold captionD; lra).
    assert (Hpos : (0 < perCharDuration c)%Q).
    { unfold perCharDuration. rewrite Z.max_r by lia.
      apply Qlt_shift_div_l; lra. }
    pose proof (wordLoop_finds (perCharDuration c) (elapsedT c t) (w :: rest) 0 0)
      as F.
    rewrite joinWords_length, <- Htext in F.
    assert (F1 : (inject_Z 0 * perCharDuration c <= elapsedT c t)%Q).
    { change (inject_Z 0) with 0%Q. unfold elapsedT. lra. }
    assert (F2 : (elapsedT c t
                  < inject_Z (0 + (JSString.length (Caption.text c) + 1))%Z
                    * perCharDuration c)%Q).
    { rewrite Z.add_0_l, inject_Z_plus. change (inject_Z 1) with 1%Q.
      unfold elapsedT, captionD in *. nra. }
    specialize (F F1 F2).
    rewrite (proj2 (Z.eqb_neq _ (-1))) by lia. cbn [andb]. lia. }
  split; [exact Hidx|].
  unfold activeWord. rewrite (proj2 (Z.ltb_ge _ 0)) by lia. rewrite Hwords.
  destruct (nth_error (w :: rest) (Z.to_nat (activeWordIndex c t))) as [word|] eqn:E.
  - exists word. split; [reflexivity|]. eapply nth_error_In. exact E.
  - apply nth_error_None in E. lia.
Qed.

(** The theorem at the scenario caption, at its last instant. *)
Lemma spaced_caption_always_highlighted_witness :
  exists word, activeWord scenarioCaption 16 = Some word
               /\ In word [of_string "this"; of_string "is"; of_string "a";
                           of_string "test"].
Proof.
  apply (proj2 (proj2 (spaced_caption_always_highlighted scenarioCaption
           (of_string "this") [of_string "is"; of_string "a"; of_string "test"] 16
           ltac:(repeat constructor; discriminate) eq_refl eq_refl eq_refl))).
Defined.

End WellFormedCaptions.

(** ** The caption line on the canvas *)

Section CaptionLine.
Import JSString Layout.

Variable measureText : JSString.t -> Q.
Variable spaceWidth : Q.
Variable canvasWidth : Q.

Lemma fold_left_width_shift (l : list Q) (a : Q) :
  (fold_left (fun acc m => acc + m) l a
   == a + fold_left (fun acc m => acc + m) l 0)%Q.
Proof.
  revert a. induction l as [|m l IH]; intro a; cbn [fold_left].
  - lra.
  - rewrite (IH (a + m)%Q), (IH (0 + m)%Q). lra.
Qed.

Lemma totalTextWidth_snoc (pre : list JSString.t) (w : JSString.t) :
  (totalTextWidth measureText spaceWidth (pre ++ [w])
   == fold_left (fun acc m => acc + m) (List.map measureText pre) 0
      + inject_Z (Z.of_nat (List.length pre)) * spaceWidth + measureText w)%Q.
Proof.
  unfold totalTextWidth. rewrite map_app, fold_left_app, length_app.
  cbn [List.map fold_left List.length].
  rewrite Nat2Z.inj_add, inject_Z_plus. change (inject_Z (Z.of_nat 1)) with 1%Q.
  lra.
Qed.

(** Where the draw loop puts the word after [pre]. *)
Lemma drawLoop_snoc (pre : list JSString.t) (w : JSString.t) (x : Q) :
  exists xl,
    nth_error (drawLoop measureText spaceWidth x (pre ++ [w])) (List.length pre)
    = Some xl
    /\ (xl == x + fold_left (fun acc m => acc + m) (List.map measureText pre) 0
              + inject_Z (Z.of_nat (List.length pre)) * spaceWidth)%Q.
Proof.
  revert x. induction pre as [|u pre IH]; intro x.
  - exists x. split; [reflexivity|].
    cbn [List.map fold_left List.length Z.of_nat].
    change (inject_Z 0) with 0%Q. lra.
  - destruct (IH (x + measureText u + spaceWidth)%Q) as [xl [H1 H2]].
    exists xl. split; [exact H1|]. rewrite H2.
    cbn [List.map fold_left List.length].
    rewrite (fold_left_width_shift _ (0 + measureText u)%Q).
    rewrite Nat2Z.inj_succ. unfold Z.succ. rewrite inject_Z_plus.
    change (inject_Z 1) with 1%Q. lra.
Qed.

Lemma drawLoop_step (words : list JSString.t) (x : Q) (i : nat)
      (w : JSString.t) (xi xj : Q) :
  nth_error words i = Some w ->
  nth_error (drawLoop measureText spaceWidth x words) i = Some xi ->
  nth_error (drawLoop measureText spaceWidth x words) (S i) = Some xj ->
  (xj == xi + measureText w + spaceWidth)%Q.
Proof.
  revert x i. induction words as [|u words IH]; intros x i Hw Hi Hj.
  - destruct i; discriminate.
  - destruct i as [|i].
    + cbn in Hw, Hi. injection Hw as ->. injection Hi as <-.
      destruct words as [|v words]; cbn in Hj; [discriminate|].
      injection Hj as <-. reflexivity.
    + cbn in Hw, Hi. cbn [drawLoop nth_error] in Hj. eapply IH; eassumption.
Qed.

(** X11: the caption line is centred and laid out left to right.  For every
    non-empty list of words, the first word is drawn at
    (canvas width - total width) / 2, the space left of the first word
    equals the space right of the last word, and each following word starts
    one word width and one space after the start of the word before it. *)
Theorem caption_line_centred (pre : list JSString.t) (w : JSString.t) :
  hd_error (wordPositions measureText spaceWidth canvasWidth (pre ++ [w]))
  = Some (startX measureText spaceWidth canvasWidth (pre ++ [w]))
  /\ (exists xl,
         nth_error (wordPositions measureText spaceWidth canvasWidth (pre ++ [w]))
                   (List.length pre) = Some xl
         /\ (startX measureText spaceWidth canvasWidth (pre ++ [w])
             == canvasWidth - (xl + measureText w))%Q)
  /\ (forall i u xi xj,
         nth_error (pre ++ [w]) i = Some u ->
         nth_error (wordPositions measureText spaceWidth canvasWidth (pre ++ [w])) i
         = Some xi ->
         nth_error (wordPositions measureText spaceWidth canvasWidth (pre ++ [w]))
                   (S i) = Some xj ->
         (xj == xi + measureText u + spaceWidth)%Q).
Proof.
  split; [|split].
  - unfold wordPositions. destruct pre; reflexivity.
  - unfold wordPositions.
    destruct (drawLoop_snoc pre w
                (startX measureText spaceWidth canvasWidth (pre ++ [w])))
      as [xl [H1 H2]].
    exists xl. split; [exact H1|]. rewrite H2. unfold startX.
    rewrite totalTextWidth_snoc. field.
  - intros i u xi xj. unfold wordPositions. apply drawLoop_step.
Qed.

End CaptionLine.

Section CaptionLineWitness.
Import JSString Layout.

(** The theorem with every code unit ten pixels wide, on a canvas of 640:
    "this is" starts at 285. *)
Lemma caption_line_centred_witness :
  hd_error (wordPositions (fun s => inject_Z (10 * JSString.length s)) 10 640
              ([of_string "this"] ++ [of_string "is"]))
  = Some (startX (fun s => inject_Z (10 * JSString.length s)) 10 640
            ([of_string "this"] ++ [of_string "is"]))
  /\ (startX (fun s => inject_Z (10 * JSString.length s)) 10 640
        ([of_string "this"] ++ [of_string "is"]) == 285)%Q.
Proof.
  split.
  - apply (caption_line_centred (fun s => inject_Z (10 * JSString.length s)) 10 640
             [of_string "this"] (of_string "is")).
  - vm_compute. reflexivity.
Defined.

End CaptionLineWitness.

(** ** The upload form: the name of a fetched file *)

Section FileNameFromUrl.
Import JSString Uploader.

Lemma splitOnFrom_parts (sep : code_unit) (s cur : JSString.t) :
  Forall (fun c => (c =? sep)%N = false) cur ->
  splitOnFrom sep cur s <> []
  /\ Forall (fun p => Forall (fun c => (c =? sep)%N = false) p
                      /\ Forall (fun c => In c cur \/ In c s) p)
            (splitOnFrom sep cur s).
Proof.
  revert cur. induction s as [|a s IH]; intros cur Hcur; cbn [splitOnFrom].
  - split; [discriminate|]. constructor; [|constructor]. split.
    + apply Forall_rev. exact Hcur.
    + apply Forall_forall. intros c Hc. left. apply in_rev. exact Hc.
  - destruct (N.eqb_spec a sep) as [->|Hne].
    + split; [discriminate|]. constructor.
      * split; [apply Forall_rev; exact Hcur|].
        apply Forall_forall. intros c Hc. left. apply in_rev. exact Hc.
      * destruct (IH [] ltac:(constructor)) as [_ H].
        revert H. apply Forall_impl. intros p [H1 H2]. split; [exact H1|].
        revert H2. apply Forall_impl. intros c [[]|Hc]. right. right. exact Hc.
    + assert (Hcur' : Forall (fun c => (c =? sep)%N = false) (a :: cur)).
      { constructor; [apply N.eqb_neq; exact Hne | exact Hcur]. }
      destruct (IH (a :: cur) Hcur') as [Hn H]. split; [exact Hn|].
      revert H. apply Forall_impl. intros p [H1 H2]. split; [exact H1|].
      revert H2. apply Forall_impl. intros c [[<-|Hc]|Hc].
      * right. left. reflexivity.
      * left. exact Hc.
      * right. right. exact Hc.
Qed.

Lemma splitOn_part (sep : code_unit) (s p : JSString.t) :
  In p (splitOn sep s) ->
  Forall (fun c => (c =? sep)%N = false) p /\ Forall (fun c => In c s) p.
Proof.
  intro Hin. destruct (splitOnFrom_parts sep s [] ltac:(constructor)) as [_ H].
  rewrite Forall_forall in H. destruct (H p Hin) as [H1 H2]. split; [exact H1|].
  revert H2. apply Forall_impl. intros c [[]|Hc]. exact Hc.
Qed.

Lemma splitOn_last_in (sep : code_unit) (s : JSString.t) :
  In (List.last (splitOn sep s) []) (splitOn sep s).
Proof.
  destruct (splitOnFrom_parts sep s [] ltac:(constructor)) as [Hn _].
  destruct (exists_last Hn) as [l [x E]]. unfold splitOn. rewrite E.
  rewrite last_last. apply in_or_app. right. left. reflexivity.
Qed.

Lemma splitOn_hd_in (sep : code_unit) (s : JSString.t) :
  In (List.hd [] (splitOn sep s)) (splitOn sep s).
Proof.
  destruct (splitOnFrom_parts sep s [] ltac:(constructor)) as [Hn _].
  unfold splitOn. destruct (splitOnFrom sep [] s); [contradiction|].
  left. reflexivity.
Qed.

(** X12: the name given to a file fetched from a URL is always usable: it
    is never empty and never contains a slash, a hash sign or a question
    mark; it is either the default "downloaded_video.mp4" or made of code
    units of the URL. *)
Theorem fileNameFromUrl_safe (url : JSString.t) :
  fileNameFromUrl url <> []
  /\ Forall (fun c => c <> 47%N /\ c <> 35%N /\ c <> 63%N) (fileNameFromUrl url)
  /\ (fileNameFromUrl url = of_string "downloaded_video.mp4"
      \/ Forall (fun c => In c url) (fileNameFromUrl url)).
Proof.
  unfold fileNameFromUrl.
  set (segment := List.last (splitOn 47%N url) []).
  set (beforeHash := List.hd [] (splitOn 35%N segment)).
  set (beforeQuery := List.hd [] (splitOn 63%N beforeHash)).
  destruct (splitOn_part 47%N url segment (splitOn_last_in _ _)) as [A1 A2].
  destruct (splitOn_part 35%N segment beforeHash (splitOn_hd_in _ _)) as [B1 B2].
  destruct (splitOn_part 63%N beforeHash beforeQuery (splitOn_hd_in _ _)) as [C1 C2].
  assert (Hall : Forall (fun c => (c <> 47%N /\ c <> 35%N /\ c <> 63%N) /\ In c url)
                        beforeQuery).
  { rewrite Forall_forall in *. intros c Hc.
    pose proof (C2 c Hc) as H1. pose proof (B2 c H1) as H2.
    repeat split.
    - apply N.eqb_neq. apply A1. exact H2.
    - apply N.eqb_neq. apply B1. exact H1.
    - apply N.eqb_neq. apply C1. exact Hc.
    - apply A2. exact H2. }
  clearbody beforeQuery. destruct beforeQuery as [|c r].
  - split; [discriminate|]. split; [|left; reflexivity].
    vm_compute. repeat constructor; discriminate.
  - split; [discriminate|]. split.
    + revert Hall. apply Forall_impl. tauto.
    + right. revert Hall. apply Forall_impl. tauto.
Qed.

(** The theorem at a link with a query and a fragment, and at a link that
    ends with a slash. *)
Lemma fileNameFromUrl_safe_witness :
  fileNameFromUrl (of_string "https://example.com/media/talk.mp4?dl=1#t=30")
  = of_string "talk.mp4"
  /\ fileNameFromUrl (of_string "https://example.com/media/")
     = of_string "downloaded_video.mp4"
  /\ fileNameFromUrl (of_string "https://example.com/media/") <> [].
Proof.
  split; [vm_compute; reflexivity|]. split; [vm_compute; reflexivity|].
  apply (proj1 (fileNameFromUrl_safe (of_string "https://example.com/media/"))).
Defined.

End FileNameFromUrl.

(** ** The response text and the upload payload *)

Section ResponseText.
Import JSString Response Terms.

Lemma removeAll_fence_match (r : JSString.t) :
  removeAll fence (96%N :: 96%N :: 96%N :: r) = removeAll fence r.
Proof. reflexivity. Qed.

Lemma removeAll_fence_skip (a : code_unit) (r : JSString.t) :
  startsWith fence (a :: r) = false ->
  removeAll fence (a :: r) = a :: removeAll fence r.
Proof. intro H. unfold removeAll. cbn [removeAllFrom]. rewrite H. reflexivity. Qed.

(** Either the text starts with a fence, or its first code unit is kept. *)
Lemma fence_cases (s : JSString.t) :
  s = []
  \/ (exists r, s = 96%N :: 96%N :: 96%N :: r)
  \/ (exists a r, s = a :: r /\ startsWith fence s = false).
Proof.
  destruct s as [|a r]; [left; reflexivity|]. right.
  destruct (startsWith fence (a :: r)) eqn:E.
  - left. unfold fence in E. cbn [startsWith] in E.
    apply andb_true_iff in E. destruct E as [Ha E]. apply N.eqb_eq in Ha.
    destruct r as [|b r]; [discriminate E|]. cbn [startsWith] in E.
    apply andb_true_iff in E. destruct E as [Hb E]. apply N.eqb_eq in Hb.
    destruct r as [|c r]; [discriminate E|]. cbn [startsWith] in E.
    apply andb_true_iff in E. destruct E as [Hc _]. apply N.eqb_eq in Hc.
    subst. eauto.
  - right. eauto.
Qed.

Lemma tick_or_not (s : JSString.t) :
  (exists r, s = 96%N :: r) \/ startsWithTick s = false.
Proof.
  destruct s as [|c r]; [right; reflexivity|]. cbn [startsWithTick].
  destruct (N.eqb_spec c 96) as [->|Hne]; [left; eauto | right; reflexivity].
Qed.

Lemma startsWith_fence_0 (s : JSString.t) :
  startsWithTick s = false -> startsWith fence s = false.
Proof.
  destruct s as [|c r]; [reflexivity|]. cbn [startsWithTick]. intro H.
  unfold fence. cbn [startsWith]. rewrite N.eqb_sym, H. reflexivity.
Qed.

Lemma startsWith_fence_1 (s : JSString.t) :
  startsWithTick s = false -> startsWith fence (96%N :: s) = false.
Proof.
  intro H. unfold fence. cbn [startsWith]. rewrite N.eqb_refl. cbn [andb].
  destruct s as [|c r]; [reflexivity|]. cbn [startsWithTick] in H.
  cbn [startsWith]. rewrite N.eqb_sym, H. reflexivity.
Qed.

Lemma startsWith_fence_2 (s : JSString.t) :
  startsWithTick s = false -> startsWith fence (96%N :: 96%N :: s) = false.
Proof.
  intro H. unfold fence. cbn [startsWith]. rewrite N.eqb_refl. cbn [andb].
  destruct s as [|c r]; [reflexivity|]. cbn [startsWithTick] in H.
  cbn [startsWith]. rewrite N.eqb_sym, H. reflexivity.
Qed.

Lemma removeAll_fence_head (s : JSString.t) :
  startsWithTick s = false -> startsWithTick (removeAll fence s) = false.
Proof.
  intro H. destruct s as [|a r]; [reflexivity|].
  rewrite removeAll_fence_skip by (apply startsWith_fence_0; exact H).
  exact H.
Qed.

(** What is left never starts with a fence. *)
Lemma removeAll_fence_start (n : nat) (s : JSString.t) :
  (List.length s <= n)%nat -> startsWith fence (removeAll fence s) = false.
Proof.
  revert s. induction n as [|n IH]; intros s Hlen.
  - destruct s; [reflexivity | cbn in Hlen; lia].
  - destruct (fence_cases s) as [->|[[r ->]|[a [r [-> Hno]]]]].
    + reflexivity.
    + rewrite removeAll_fence_match. apply IH. cbn in Hlen. lia.
    + rewrite (removeAll_fence_skip a r Hno).
      destruct (tick_or_not (a :: r)) as [[r0 E]|Ha].
      2:{ apply startsWith_fence_0. exact Ha. }
      injection E as -> <-.
      destruct (tick_or_not r) as [[r1 ->]|Hr].
      2:{ apply startsWith_fence_1, removeAll_fence_head. exact Hr. }
      destruct (tick_or_not r1) as [[r2 ->]|Hr1].
      { unfold fence in Hno. cbn in Hno. discriminate Hno. }
      rewrite removeAll_fence_skip by (apply startsWith_fence_1; exact Hr1).
      apply startsWith_fence_2, removeAll_fence_head. exact Hr1.
Qed.

(** Every tail of what is left is what is left of a tail. *)
Lemma removeAll_fence_tails (n : nat) (s a u : JSString.t) :
  (List.length s <= n)%nat -> removeAll fence s = a ++ u ->
  exists s', u = removeAll fence s'.
Proof.
  revert s a. induction n as [|n IH]; intros s a Hlen E.
  - destruct s; [|cbn in Hlen; lia].
    destruct a; [|discriminate]. exists []. symmetry. exact E.
  - destruct a as [|x a]; [exists s; symmetry; exact E|].
    destruct (fence_cases s) as [->|[[r ->]|[c [r [-> Hno]]]]].
    + discriminate.
    + rewrite removeAll_fence_match in E.
      apply (IH r (x :: a)); [cbn in Hlen; lia | exact E].
    + rewrite (removeAll_fence_skip c r Hno) in E. cbn [app] in E.
      injection E as _ E.
      apply (IH r a); [cbn in Hlen; lia | exact E].
Qed.

Lemma startsWith_app (p b : JSString.t) : startsWith p (p ++ b) = true.
Proof.
  induction p as [|c p IH]; [destruct b; reflexivity|].
  cbn. rewrite N.eqb_refl, IH. reflexivity.
Qed.

Lemma removeAll_fence_none (s : JSString.t) :
  ~ occursIn fence (removeAll fence s).
Proof.
  intros [a [b E]].
  destruct (removeAll_fence_tails (List.length s) s a (fence ++ b) (le_n _) E)
    as [s' E'].
  pose proof (removeAll_fence_start (List.length s') s' (le_n _)) as H.
  rewrite <- E', startsWith_app in H. discriminate.
Qed.

(** X13: the text handed to the JSON parser is clean: for every response
    text, [cleanedText] contains no run of three backquotes, and it is empty
    or starts and ends with a code unit that is not white space. *)
Theorem cleanedText_clean (responseText : JSString.t) :
  ~ occursIn fence (cleanedText responseText)
  /\ (cleanedText responseText = []
      \/ exists c r pre y,
           cleanedText responseText = c :: r
           /\ cleanedText responseText = pre ++ [y]
           /\ isWhiteSpace c = false /\ isWhiteSpace y = false).
Proof.
  split; [|apply trim_ends].
  unfold cleanedText. intros [a [b E]].
  destruct (trim_piece (removeAll fence (removeAll fenceJson responseText)))
    as [a' [b' E']].
  apply (removeAll_fence_none (removeAll fenceJson responseText)).
  exists (a' ++ a), (b ++ b'). rewrite E', E. rewrite <- !app_assoc. reflexivity.
Qed.

(** The theorem at a fenced answer. *)
Lemma cleanedText_clean_witness :
  cleanedText (fenceJson ++ of_string " [1, 2] " ++ fence) = of_string "[1, 2]"
  /\ ~ occursIn fence (cleanedText (fenceJson ++ of_string " [1, 2] " ++ fence)).
Proof.
  split; [vm_compute; reflexivity|].
  apply (proj1 (cleanedText_clean (fenceJson ++ of_string " [1, 2] " ++ fence))).
Defined.

(** X14: the payload of a data URL.  When the text before the first comma
    (the "data:<type>;base64" header) has no comma, [base64Data] returns
    exactly what follows that comma up to the next comma, so the whole
    payload when the payload is free of commas, as base64 text is; a text
    without any comma has no payload ([undefined]). *)
Theorem base64Data_payload (header payload : JSString.t) :
  Forall (fun c => (c =? 44)%N = false) header ->
  (Forall (fun c => (c =? 44)%N = false) payload ->
   base64Data (header ++ 44%N :: payload) = Some payload)
  /\ (forall more,
        Forall (fun c => (c =? 44)%N = false) payload ->
        base64Data (header ++ 44%N :: payload ++ 44%N :: more) = Some payload)
  /\ base64Data header = None.
Proof.
  intro Hh. unfold base64Data, splitOn. split; [|split].
  - intro Hp.
    pose proof (splitOnFrom_piece 44%N header [] payload Hh) as E1.
    pose proof (splitOnFrom_last_piece 44%N payload [] Hp) as E2.
    unfold JSString.t, code_unit in *. rewrite E1, E2. reflexivity.
  - intros more Hp.
    pose proof (splitOnFrom_piece 44%N header [] (payload ++ 44%N :: more) Hh)
      as E1.
    pose proof (splitOnFrom_piece 44%N payload [] more Hp) as E2.
    unfold JSString.t, code_unit in *. rewrite E1, E2. reflexivity.
  - pose proof (splitOnFrom_last_piece 44%N header [] Hh) as E1.
    unfold JSString.t, code_unit in *. rewrite E1. reflexivity.
Qed.

(** The theorem at a short data URL. *)
Lemma base64Data_payload_witness :
  base64Data (of_string "data:video/mp4;base64,AAAAIGZ0eXA=")
  = Some (of_string "AAAAIGZ0eXA=").
Proof.
  apply (proj1 (base64Data_payload (of_string "data:video/mp4;base64")
                  (of_string "AAAAIGZ0eXA=")
                  ltac:(vm_compute; repeat constructor))).
  vm_compute. repeat constructor.
Defined.

End ResponseText.

(** ** The application shell *)

Section AppShell.
Import JSString App Terms.

Lemma step_urlsConsistent (s : State) (e : Event) :
  urlsConsistent s -> urlsConsistent (step s e).
Proof.
  intros [H1 H2]. destruct s. cbn in H1, H2. unfold urlsConsistent.
  destruct e as [file|results| |]; cbn [step].
  - unfold handleProcessStart.
    destruct (250 * 1024 * 1024 <? Uploader.size file); cbn; [auto|].
    split.
    + intros u E. injection E as <-. split; [lia|].
      intro Hin. specialize (H2 _ Hin). lia.
    + intros u Hin. specialize (H2 _ Hin). lia.
  - cbn. auto.
  - cbn. auto.
  - cbn. split; [discriminate|].
    destruct videoUrl0 as [u0|]; [|exact H2].
    intros u [<-|Hin]; [apply (H1 u0 eq_refl) | apply H2; exact Hin].
Qed.

Lemma run_urlsConsistent (evs : list Event) (s : State) :
  urlsConsistent s -> urlsConsistent (run s evs).
Proof.
  revert s. unfold run. induction evs as [|e evs IH]; intros s H; cbn [fold_left].
  - exact H.
  - apply IH, step_urlsConsistent, H.
Qed.

(** X15: the player never gets a revoked video URL.  Whatever the order of
    uploads, analysis results, analysis failures and resets since the
    application started, whenever the result view is mounted (state RESULTS
    with a video URL), that object URL has been created and has not been
    revoked. *)
Theorem player_url_is_live (evs : list Event) (u : ObjectUrl) :
  playerShown (run initial evs) = Some u ->
  (u < created (run initial evs))%nat /\ ~ In u (revoked (run initial evs)).
Proof.
  intro H.
  assert (Hc : urlsConsistent initial).
  { split; [discriminate | intros ? []]. }
  destruct (run_urlsConsistent evs initial Hc) as [H1 _].
  apply H1. unfold playerShown in H.
  destruct (appState (run initial evs)); try discriminate. exact H.
Qed.

(** The theorem on a session with a reset followed by a second upload. *)
Lemma player_url_is_live_witness :
  ~ In 1%nat
      (revoked (run initial
                    [ProcessStart (Uploader.mkFile (of_string "a.mp4") 1000
                                                   (of_string "video/mp4"));
                     Reset;
                     ProcessStart (Uploader.mkFile (of_string "b.mp4") 2000
                                                   (of_string "video/mp4"));
                     AnalysisFulfilled []])).
Proof.
  apply (player_url_is_live
           [ProcessStart (Uploader.mkFile (of_string "a.mp4") 1000
                                          (of_string "video/mp4"));
            Reset;
            ProcessStart (Uploader.mkFile (of_string "b.mp4") 2000
                                          (of_string "video/mp4"));
            AnalysisFulfilled []] 1%nat).
  reflexivity.
Defined.

End AppShell.

Section SubmitGate.
Import JSString JSNum Terms.

(** X16: what reaches the analysis.  Pressing the submit button starts the
    analysis exactly when a file is selected, the video lasts 30 seconds or
    more and the file has at most 250 MiB; in every other case no object URL
    is created and the shell stays in the state and with the clips it
    had. *)
Theorem submit_starts_analysis_iff (form : Uploader.State) (shell : App.State) :
  (snd (submit form shell) = true
   <-> exists file, Uploader.selectedFile form = Some file
                    /\ (30 <= Uploader.videoDuration form)%Q
                    /\ Uploader.size file <= 250 * 1024 * 1024)
  /\ (snd (submit form shell) = false ->
      App.appState (fst (submit form shell)) = App.appState shell
      /\ App.videoUrl (fst (submit form shell)) = App.videoUrl shell
      /\ App.created (fst (submit form shell)) = App.created shell
      /\ App.clips (fst (submit form shell)) = App.clips shell)
  /\ (snd (submit form shell) = true ->
      App.appState (fst (submit form shell)) = App.ANALYZING
      /\ App.videoUrl (fst (submit form shell)) = Some (App.created shell)
      /\ App.videoFile (fst (submit form shell)) = Uploader.selectedFile form).
Proof.
  unfold submit, Uploader.handleSubmit.
  destruct (Uploader.selectedFile form) as [file|] eqn:Ef; cbn [snd].
  2:{ split; [|split]; try discriminate.
      - split; [discriminate|]. intros [f [E _]]. discriminate.
      - auto. }
  destruct (Qltb (Uploader.videoDuration form) 30) eqn:Ed; cbn [snd].
  { apply Qltb_iff in Ed. split; [|split]; try discriminate.
    - split; [discriminate|]. intros [f [_ [H _]]]. lra.
    - auto. }
  apply Qltb_false in Ed. unfold App.handleProcessStart.
  destruct (Z.ltb_spec (250 * 1024 * 1024) (Uploader.size file)) as [Hs|Hs];
    cbn [fst snd].
  - split; [|split]; try discriminate.
    + split; [discriminate|]. intros [f [E [_ H]]]. injection E as <-. lia.
    + destruct shell. cbn. auto.
  - split; [|split]; try discriminate.
    + split; [|reflexivity]. intros _. exists file. auto.
    + intros _. cbn. auto.
Qed.

(** The theorem on a form holding a 45 second video of 5 MB. *)
Lemma submit_starts_analysis_iff_witness :
  snd (submit (Uploader.mkState
                 (Some (Uploader.mkFile (of_string "talk.mp4") 5000000
                                        (of_string "video/mp4")))
                 45 false (of_string "00:00") (of_string "00:45") 3 None)
              App.initial) = true.
Proof.
  apply (proj1 (submit_starts_analysis_iff _ App.initial)).
  eexists. split; [reflexivity|]. split; [vm_compute; discriminate | vm_compute; discriminate].
Defined.

End SubmitGate.

Section ExportEnd.
Import JSString JSNum Player Spec Terms.

Lemma step_pausedOnceStopped (s : State) (e : Event) :
  pausedOnceStopped s -> pausedOnceStopped (fst (step s e)).
Proof.
  intros J Hx. destruct (step_keeps_exporting s e Hx) as [Hx0 _].
  specialize (J Hx0). clear Hx. destruct s. cbn in Hx0, J. subst isExporting0.
  destruct e as [t|clip| | |data| |]; cbn [step].
  - unfold handleTimeUpdate, video_seek, set_video. cbn.
    destruct activeClip0 as [c0|]; cbn; [|exact J].
    destruct (Qle_bool (Clip.endSeconds c0) t); cbn; [|exact J].
    unfold finishExport. cbn.
    destruct mediaRecorder0 as [[st mt au cl q]|]; cbn; [|exact J].
    destruct st; cbn; try (intros; reflexivity). exact J.
  - cbn. exact J.
  - cbn. exact J.
  - cbn. exact J.
  - cbn. unfold ondataavailable. cbn.
    destruct mediaRecorder0; cbn;
      try destruct (0 <? Z.of_nat (List.length data)); cbn; exact J.
  - cbn. destruct mediaRecorder0 as [[st mt au cl []]|]; cbn; try exact J.
    intros r E Hst. injection E as <-. cbn in Hst. apply (J _ eq_refl Hst).
  - cbn. exact J.
Qed.

Lemma run_pausedOnceStopped (evs : list Event) (s : State) :
  pausedOnceStopped s -> pausedOnceStopped (fst (run s evs)).
Proof.
  revert s. induction evs as [|e rest IH]; intros s J; [exact J|].
  destruct (run_cons s e rest) as [E _]. rewrite E.
  apply IH, step_pausedOnceStopped, J.
Qed.

Lemma run_keeps_recorder_clip (clip : Clip.t) (evs : list Event) (s : State) :
  (exists r, mediaRecorder s = Some r /\ capturedClip r = clip) ->
  exists r, mediaRecorder (fst (run s evs)) = Some r /\ capturedClip r = clip.
Proof.
  revert s. induction evs as [|e rest IH]; intros s H; [exact H|].
  destruct (run_cons s e rest) as [E _]. rewrite E. apply IH.
  destruct H as [r [Hr Hcl]]. destruct s. cbn in Hr. subst mediaRecorder0.
  destruct r as [st mt au cl q]. cbn in Hcl. subst cl.
  destruct e as [t|clip'| | |data| |]; cbn [step].
  - unfold handleTimeUpdate, video_seek, set_video. cbn.
    destruct activeClip0 as [c0|]; cbn; [|eauto].
    destruct (Qle_bool (Clip.endSeconds c0) t); destruct isExporting0;
      unfold finishExport; cbn; try destruct st; cbn; eauto.
  - cbn. destruct isExporting0; cbn; eauto.
  - cbn. destruct isExporting0; cbn; eauto.
  - cbn. destruct isExporting0; cbn; eauto.
  - cbn. unfold ondataavailable. cbn.
    destruct (0 <? Z.of_nat (List.length data)); cbn; eauto.
  - cbn. destruct q; cbn; eauto.
  - cbn. eauto.
Qed.

(** X17: an export ends in a replayable state.  After [handleDownloadClip]
    on clip c and any events during which the export stays in progress, the
    delivery of the recorder's queued stop event downloads the file of c and
    leaves the player idle: [isExporting] false, export progress 0, the
    video paused and positioned at c.startSeconds, c still the active
    clip. *)
Theorem export_ends_replayable (pf : Platform) (s : State) (clip : Clip.t)
        (evs : list Event) :
  activeClip s = Some clip ->
  isExporting (fst (run (fst (handleDownloadClip pf s)) evs)) = true ->
  recorderIs inactive true (fst (run (fst (handleDownloadClip pf s)) evs)) ->
  isExporting
    (fst (step (fst (run (fst (handleDownloadClip pf s)) evs)) RecorderStop)) = false
  /\ exportProgress
       (fst (step (fst (run (fst (handleDownloadClip pf s)) evs)) RecorderStop))
     = Fin 0
  /\ video_currentTime
       (fst (step (fst (run (fst (handleDownloadClip pf s)) evs)) RecorderStop))
     = Clip.startSeconds clip
  /\ video_paused
       (fst (step (fst (run (fst (handleDownloadClip pf s)) evs)) RecorderStop))
     = true
  /\ activeClip
       (fst (step (fst (run (fst (handleDownloadClip pf s)) evs)) RecorderStop))
     = Some clip
  /\ exists blob,
       snd (step (fst (run (fst (handleDownloadClip pf s)) evs)) RecorderStop)
       = [Downloaded (downloadName clip) blob].
Proof.
  intros Hc Hx [r [Hr [Hst Hq]]].
  destruct (handleDownloadClip_starts pf s clip Hc)
    as [[r0 [Hr0 [Hst0 _]]] [Hx0 [Ha0 [_ [_ [Hcl0 _]]]]]].
  destruct (export_freezes_selection_aux evs _ Hx) as [_ [_ Ha]].
  rewrite Ha0 in Ha.
  assert (J0 : pausedOnceStopped (fst (handleDownloadClip pf s))).
  { intros _ r1 E1 H1. rewrite Hr0 in E1. injection E1 as <-. congruence. }
  pose proof (run_pausedOnceStopped evs _ J0 Hx r Hr Hst) as Hp.
  destruct Hcl0 as [rc [Hrc [Hclc _]]].
  destruct (run_keeps_recorder_clip clip evs _
              (ex_intro _ rc (conj Hrc Hclc))) as [r' [Hr' Hcl]].
  rewrite Hr in Hr'. injection Hr' as <-.
  set (s2 := fst (run (fst (handleDownloadClip pf s)) evs)) in *.
  clearbody s2. destruct s2. cbn in Hx, Hr, Hp, Ha. subst.
  destruct r as [st mt au cl q]. cbn in Hst, Hq. subst.
  cbn in Hcl. rewrite <- Hcl. cbn. repeat split; eauto.
Qed.

(** The theorem on a run of the scenario clip up to the boundary tick. *)
Lemma export_ends_replayable_witness :
  video_paused
    (fst (step (fst (run (fst (handleDownloadClip (mkPlatform true true)
                                 (stoppedAt scenarioClip)))
                         [VideoPlay; TimeUpdate 25; TimeUpdate (402 # 10)]))
               RecorderStop)) = true.
Proof.
  apply (export_ends_replayable (mkPlatform true true) (stoppedAt scenarioClip)
           scenarioClip [VideoPlay; TimeUpdate 25; TimeUpdate (402 # 10)] eq_refl).
  - vm_compute. reflexivity.
  - vm_compute. eexists. repeat split.
Defined.

End ExportEnd.
